(** * MCP: a shallow embedding of the GitHub file-management tool

    The development follows the Python sources module by module:
    - [mcp/file_ops.py]  : [FileOperations] (file-name and path validation,
      directory and file creation),
    - [mcp/config.py]    : [MCPConfig],
    - [mcp/git_ops.py]   : [GitOperations] (URL validation, clone, push),
    - [mcp/server.py]    : the operation store, the background jobs and the
      REST end points.

    Python [str] values are Rocq strings whose characters stand for code
    points below 256.  The operating system, the Git library and the
    standard input are reached through an interface ([Sys]); the Python code
    is written once, over any implementation of that interface, in a state
    and exception monad.  A small POSIX-like implementation ([Toy]) makes the
    code executable on concrete inputs. *)

From Stdlib Require Import String Ascii List Bool Arith Lia.
From stdpp Require Import gmap strings list.

Import ListNotations.
Local Open Scope string_scope.
Local Open Scope list_scope.
Local Open Scope nat_scope.

(** ** Python string primitives *)

Definition code (c : ascii) : nat := nat_of_ascii c.

Definition chr (n : nat) : ascii := ascii_of_nat n.

Definition str1 (c : ascii) : string := String c EmptyString.

(** [bool(s)] for a string: the empty string is false. *)
Definition nonempty (s : string) : bool :=
  match s with EmptyString => false | String _ _ => true end.

Fixpoint str_all (p : ascii -> bool) (s : string) : bool :=
  match s with
  | EmptyString => true
  | String c s' => p c && str_all p s'
  end.

Fixpoint str_any (p : ascii -> bool) (s : string) : bool :=
  match s with
  | EmptyString => false
  | String c s' => p c || str_any p s'
  end.

Definition char_in (cs : list ascii) (c : ascii) : bool :=
  existsb (Ascii.eqb c) cs.

(** [c in s] for a one-character needle. *)
Definition contains_char (c : ascii) (s : string) : bool :=
  str_any (Ascii.eqb c) s.

(** [s.split(sep)] for a one-character separator: every separator cuts,
    empty fields are kept, the result is never empty. *)
Fixpoint split (sep : ascii) (s : string) : list string :=
  match s with
  | EmptyString => [EmptyString]
  | String c s' =>
      if Ascii.eqb c sep then EmptyString :: split sep s'
      else match split sep s' with
           | h :: t => String c h :: t
           | [] => [str1 c]
           end
  end.

(** [sep.join(l)]. *)
Fixpoint join (sep : string) (l : list string) : string :=
  match l with
  | [] => EmptyString
  | [x] => x
  | x :: rest => x +:+ sep +:+ join sep rest
  end.

Fixpoint lstrip_by (p : ascii -> bool) (s : string) : string :=
  match s with
  | EmptyString => EmptyString
  | String c s' => if p c then lstrip_by p s' else s
  end.

Fixpoint rstrip_by (p : ascii -> bool) (s : string) : string :=
  match s with
  | EmptyString => EmptyString
  | String c s' =>
      match rstrip_by p s' with
      | EmptyString => if p c then EmptyString else str1 c
      | r => String c r
      end
  end.

Definition strip_by (p : ascii -> bool) (s : string) : string :=
  rstrip_by p (lstrip_by p s).

(** [str.isspace] on the code points below 256. *)
Definition is_space (c : ascii) : bool :=
  let n := code c in
  ((9 <=? n) && (n <=? 13)) || ((28 <=? n) && (n <=? 32))
  || (n =? 133) || (n =? 160).

(** [s.strip()]. *)
Definition strip (s : string) : string := strip_by is_space s.

(** [s.strip(chars)]. *)
Definition strip_chars (cs : list ascii) (s : string) : string :=
  strip_by (char_in cs) s.

Definition is_ascii_lower (c : ascii) : bool :=
  (97 <=? code c) && (code c <=? 122).

Definition is_ascii_upper (c : ascii) : bool :=
  (65 <=? code c) && (code c <=? 90).

Definition is_digit (c : ascii) : bool :=
  (48 <=? code c) && (code c <=? 57).

Definition upper_char (c : ascii) : ascii :=
  if is_ascii_lower c then chr (code c - 32) else c.

Definition lower_char (c : ascii) : ascii :=
  if is_ascii_upper c then chr (code c + 32) else c.

Fixpoint str_map (f : ascii -> ascii) (s : string) : string :=
  match s with
  | EmptyString => EmptyString
  | String c s' => String (f c) (str_map f s')
  end.

(** [s.upper()] and [s.lower()] on the ASCII letters.  The code compares
    the results with ASCII constants only, and no character outside ASCII
    has an upper or lower case among the letters of those constants. *)
Definition upper (s : string) : string := str_map upper_char s.
Definition lower (s : string) : string := str_map lower_char s.

(** [s.startswith(p)]. *)
Fixpoint startswith (p s : string) : bool :=
  match p, s with
  | EmptyString, _ => true
  | String a p', String b s' => Ascii.eqb a b && startswith p' s'
  | String _ _, EmptyString => false
  end.

Fixpoint str_rev_onto (s acc : string) : string :=
  match s with
  | EmptyString => acc
  | String c s' => str_rev_onto s' (String c acc)
  end.

Definition str_rev (s : string) : string := str_rev_onto s EmptyString.

(** [s.endswith(p)]. *)
Definition endswith (p s : string) : bool :=
  startswith (str_rev p) (str_rev s).

Fixpoint str_drop (n : nat) (s : string) : string :=
  match n, s with
  | O, _ => s
  | S n', String _ s' => str_drop n' s'
  | S _, EmptyString => EmptyString
  end.

Fixpoint str_take (n : nat) (s : string) : string :=
  match n, s with
  | O, _ => EmptyString
  | S n', String c s' => String c (str_take n' s')
  | S _, EmptyString => EmptyString
  end.

(** [s[:-n]]. *)
Definition drop_last (n : nat) (s : string) : string :=
  str_take (String.length s - n) s.

(** [needle in s] for a substring. *)
Fixpoint contains (needle s : string) : bool :=
  startswith needle s
  || match s with
     | EmptyString => false
     | String _ s' => contains needle s'
     end.

(** [s.replace(old, new)] for a non-empty [old]: the occurrences are
    replaced from left to right and do not overlap.  [skip] counts the
    characters of a replaced occurrence still to be passed over. *)
Fixpoint replace_from (old new : string) (skip : nat) (s : string) : string :=
  match s with
  | EmptyString => EmptyString
  | String c s' =>
      match skip with
      | S k => replace_from old new k s'
      | O =>
          if startswith old s
          then new +:+ replace_from old new (String.length old - 1) s'
          else String c (replace_from old new 0 s')
      end
  end.

Definition replace (old new s : string) : string := replace_from old new 0 s.

(** Truthiness, as [if x:] tests it.  The flag [dry_run] is declared as a
    [bool] but the callers are free to pass any object. *)
Class Truthy (A : Type) := truthy : A -> bool.

#[global] Instance truthy_bool : Truthy bool := fun b => b.
#[global] Instance truthy_str : Truthy string := nonempty.
#[global] Instance truthy_opt_str : Truthy (option string) :=
  fun o => match o with Some s => nonempty s | None => false end.

(** ** pathlib: pure POSIX paths

    [Path] is [PosixPath]: the separator is [/], there is no drive. *)

(** A parsed path: the root ([EmptyString], [/] or [//]) and the names
    after it.  Empty components and [.] are dropped by the parser. *)
Record PurePath := mkPath { root : string; names : list string }.

Definition splitroot (p : string) : string * string :=
  if negb (startswith "/" p) then (EmptyString, p)
  else if negb (startswith "/" (str_drop 1 p)) || startswith "/" (str_drop 2 p)
       then ("/", str_drop 1 p)
       else ("//", str_drop 2 p).

Definition kept_name (x : string) : bool :=
  nonempty x && negb (String.eqb x ".").

(** [Path(s)]. *)
Definition Path (s : string) : PurePath :=
  let '(r, rel) := splitroot s in
  mkPath r (List.filter kept_name (split "/" rel)).

(** [p.parts]. *)
Definition parts (p : PurePath) : list string :=
  if nonempty (root p) then root p :: names p else names p.

(** [p.name]. *)
Definition name (p : PurePath) : string := List.last (names p) EmptyString.

(** [p.parent]. *)
Definition parent (p : PurePath) : PurePath :=
  mkPath (root p) (removelast (names p)).

(** [p / s]: a rooted right operand replaces the left one. *)
Definition joinpath (p : PurePath) (s : string) : PurePath :=
  let q := Path s in
  if nonempty (root q) then q else mkPath (root p) (names p ++ names q).

(** [str(p)]. *)
Definition path_str (p : PurePath) : string :=
  match root p, names p with
  | EmptyString, [] => "."
  | r, l => r +:+ join "/" l
  end.

(** ** mcp/file_ops.py: validation *)

(** The character class of [invalid_chars]: < > : double quote / \ | ? * *)
Definition invalid_chars : list ascii :=
  [chr 60; chr 62; chr 58; chr 34; chr 47; chr 92; chr 124; chr 63; chr 42].

Definition reserved_names : list string :=
  ["CON"; "PRN"; "AUX"; "NUL";
   "COM1"; "COM2"; "COM3"; "COM4"; "COM5"; "COM6"; "COM7"; "COM8"; "COM9";
   "LPT1"; "LPT2"; "LPT3"; "LPT4"; "LPT5"; "LPT6"; "LPT7"; "LPT8"; "LPT9"].

Definition str_in (l : list string) (s : string) : bool :=
  existsb (String.eqb s) l.

(** [FileOperations.is_valid_filename]. *)
Definition is_valid_filename (filename : string) : bool :=
  if str_any (char_in invalid_chars) filename then false
  else
    let name_without_ext := upper (hd EmptyString (split "." filename)) in
    if str_in reserved_names name_without_ext then false
    else if 255 <? String.length filename then false
    else if negb (truthy (strip filename)) then false
    else true.

(** [FileOperations.is_valid_path].  [Path] accepts every string, so the
    handler of the [try] is never entered. *)
Definition is_valid_path (path : string) : bool :=
  let path_obj := Path path in
  if str_in (parts path_obj) ".." then false
  else forallb is_valid_filename (parts path_obj).

(** ** Exceptions and results *)

(** The exception classes the code names or can meet.  Every class but
    [KeyboardInterrupt] derives from [Exception]. *)
Inductive exn : Type :=
| FileNotFoundError
| NotADirectoryError
| FileExistsError
| PermissionError
| EOFError
| ValueError (msg : string)
| GitCommandError (msg : string)
| InvalidGitRepositoryError
| NoSuchPathError
| ValidationError (field : string)
| HTTPException (status_code : nat) (detail : string)
| KeyError (key : string)
| TypeError (msg : string)
| RuntimeError (msg : string)
| KeyboardInterrupt.

Definition is_Exception (e : exn) : bool :=
  match e with KeyboardInterrupt => false | _ => true end.

(** [str(e)]. *)
Definition exn_str (e : exn) : string :=
  match e with
  | FileNotFoundError => "[Errno 2] No such file or directory"
  | NotADirectoryError => "[Errno 20] Not a directory"
  | FileExistsError => "[Errno 17] File exists"
  | PermissionError => "[Errno 13] Permission denied"
  | EOFError => "EOF when reading a line"
  | ValueError msg => msg
  | GitCommandError msg => msg
  | InvalidGitRepositoryError => "InvalidGitRepositoryError"
  | NoSuchPathError => "NoSuchPathError"
  | ValidationError field => "1 validation error: " +:+ field +:+ " field required"
  | HTTPException _ detail => detail
  | KeyError key => "'" +:+ key +:+ "'"
  | TypeError msg => msg
  | RuntimeError msg => msg
  | KeyboardInterrupt => "KeyboardInterrupt"
  end.

Inductive Res (A : Type) : Type :=
| Ok (a : A)
| Raise (e : exn).

Arguments Ok {A} a.
Arguments Raise {A} e.

(** ** urllib.parse: [urlparse]

    After CPython 3.12: leading control characters and spaces are
    stripped, and tabs, carriage returns and line feeds are removed from
    the URL before it is split. *)

Record ParseResult := mkParse {
  scheme : string; netloc : string; path : string;
  params : string; query : string; fragment : string
}.

(** The text before the first [c] (all of [s] when [c] is absent). *)
Fixpoint before (c : ascii) (s : string) : string :=
  match s with
  | EmptyString => EmptyString
  | String a s' => if Ascii.eqb a c then EmptyString else String a (before c s')
  end.

(** The text after the first [c] (empty when [c] is absent). *)
Fixpoint after (c : ascii) (s : string) : string :=
  match s with
  | EmptyString => EmptyString
  | String a s' => if Ascii.eqb a c then s' else after c s'
  end.

Fixpoint take_until (p : ascii -> bool) (s : string) : string :=
  match s with
  | EmptyString => EmptyString
  | String a s' => if p a then EmptyString else String a (take_until p s')
  end.

Fixpoint drop_until (p : ascii -> bool) (s : string) : string :=
  match s with
  | EmptyString => EmptyString
  | String a s' => if p a then s else drop_until p s'
  end.

Fixpoint str_filter (p : ascii -> bool) (s : string) : string :=
  match s with
  | EmptyString => EmptyString
  | String a s' => if p a then String a (str_filter p s') else str_filter p s'
  end.

(** [_WHATWG_C0_CONTROL_OR_SPACE]: the code points 0 to 32. *)
Definition is_c0_or_space (c : ascii) : bool := code c <=? 32.

(** [_UNSAFE_URL_BYTES_TO_REMOVE]: tab, carriage return, line feed. *)
Definition unsafe_url_bytes : list ascii := [chr 9; chr 13; chr 10].

Definition is_ascii (c : ascii) : bool := code c <? 128.

Definition is_ascii_alpha (c : ascii) : bool :=
  is_ascii_lower c || is_ascii_upper c.

Definition scheme_char (c : ascii) : bool :=
  is_ascii_alpha c || is_digit c || char_in ["+"; "-"; "."]%char c.

Definition first_is (p : ascii -> bool) (s : string) : bool :=
  match s with EmptyString => false | String a _ => p a end.

Definition uses_params : list string :=
  [EmptyString; "ftp"; "hdl"; "prospero"; "http"; "imap"; "https"; "shttp";
   "rtsp"; "rtspu"; "sip"; "sips"; "mms"; "sftp"; "tel"].

(** [_splitparams]: the parameters start at the first [;] of the last
    path segment. *)
Definition splitparams (url : string) : string * string :=
  if contains_char "/" url then
    let last_seg := str_rev (before "/" (str_rev url)) in
    let pre := str_rev (after "/" (str_rev url)) in
    if contains_char ";" last_seg
    then (pre +:+ "/" +:+ before ";" last_seg, after ";" last_seg)
    else (url, EmptyString)
  else (before ";" url, after ";" url).

Section UrlParse.

(** [urlsplit] raises [ValueError] on some network locations: unbalanced
    brackets (decided below), a bracketed host that is not an IP literal,
    and a non-ASCII host whose NFKC form contains a delimiter.  The last two
    checks belong to the library and are taken as a parameter; they are
    consulted for bracketed or non-ASCII locations only. *)
Variable netloc_rejected : string -> bool.

Definition urlsplit (url0 : string) : Res ParseResult :=
  let url := lstrip_by is_c0_or_space url0 in
  let url := str_filter (fun c => negb (char_in unsafe_url_bytes c)) url in
  let '(scheme, url) :=
    if contains_char ":" url && nonempty (before ":" url)
       && first_is is_ascii_alpha url && str_all scheme_char (before ":" url)
    then (lower (before ":" url), after ":" url)
    else (EmptyString, url) in
  let '(netloc, url) :=
    if startswith "//" url
    then (take_until (char_in ["/"; "?"; "#"]%char) (str_drop 2 url),
          drop_until (char_in ["/"; "?"; "#"]%char) (str_drop 2 url))
    else (EmptyString, url) in
  let lb := contains_char "[" netloc in
  let rb := contains_char "]" netloc in
  if (lb && negb rb) || (rb && negb lb) then Raise (ValueError "Invalid IPv6 URL")
  else if ((lb && rb) || negb (str_all is_ascii netloc)) && netloc_rejected netloc
  then Raise (ValueError "netloc contains invalid characters")
  else
    let '(url, fragment) :=
      if contains_char "#" url then (before "#" url, after "#" url)
      else (url, EmptyString) in
    let '(url, query) :=
      if contains_char "?" url then (before "?" url, after "?" url)
      else (url, EmptyString) in
    Ok (mkParse scheme netloc url EmptyString query fragment).

Definition urlparse (url : string) : Res ParseResult :=
  match urlsplit url with
  | Raise e => Raise e
  | Ok r =>
      if str_in uses_params (scheme r) && contains_char ";" (path r)
      then let '(p, prm) := splitparams (path r) in
           Ok (mkParse (scheme r) (netloc r) p prm (query r) (fragment r))
      else Ok r
  end.

(** ** mcp/git_ops.py: URL validation *)

Definition valid_char (c : ascii) : bool :=
  is_ascii_lower c || is_ascii_upper c || is_digit c
  || char_in ["."; "_"; "-"]%char c.

(** [re.compile(r'^[a-zA-Z0-9._-]+$').match(s)]: one or more characters of
    the class, up to the end of the string or up to a line feed that ends
    the string (where [$] also matches). *)
Definition valid_pattern_match (s : string) : bool :=
  let body := if endswith (str1 (chr 10)) s then drop_last 1 s else s in
  nonempty body && str_all valid_char body.

(** [GitOperations.is_valid_repo_url].  An exception of [urlparse] is
    answered with [False]. *)
Definition is_valid_repo_url (url : string) : bool :=
  match urlparse url with
  | Raise _ => false
  | Ok parsed =>
      if negb (str_in ["github.com"; "www.github.com"] (netloc parsed)) then false
      else
        let path_parts := split "/" (strip_chars ["/"%char] (path parsed)) in
        if length path_parts <? 2 then false
        else
          let username := nth 0 path_parts EmptyString in
          let repo := nth 1 path_parts EmptyString in
          if negb (truthy username) || negb (truthy repo) then false
          else
            let repo := if endswith ".git" repo then drop_last 4 repo else repo in
            if negb (valid_pattern_match username) || negb (valid_pattern_match repo)
            then false
            else true
  end.

End UrlParse.

(** ** The state and exception monad *)

Definition M (S A : Type) : Type := S -> Res A * S.

Definition ret {S A : Type} (a : A) : M S A := fun s => (Ok a, s).

Definition raise {S A : Type} (e : exn) : M S A := fun s => (Raise e, s).

Definition bind {S A B : Type} (m : M S A) (k : A -> M S B) : M S B :=
  fun s =>
    match m s with
    | (Ok a, s') => k a s'
    | (Raise e, s') => (Raise e, s')
    end.

(** [try: body except ...]: the handler answers [None] for the exceptions
    that no [except] clause catches. *)
Definition try_except {S A : Type} (body : M S A)
    (handler : exn -> option (M S A)) : M S A :=
  fun s =>
    match body s with
    | (Ok a, s') => (Ok a, s')
    | (Raise e, s') =>
        match handler e with
        | Some h => h s'
        | None => (Raise e, s')
        end
    end.

Notation "'let*' x ':=' m 'in' k" := (bind m (fun x => k))
  (at level 10, x name, m at level 100, k at level 200).
Notation "m1 ';;;' m2" := (bind m1 (fun _ => m2))
  (at level 100, m2 at level 200, right associativity).

(** ** The outside world *)

(** What the code reaches through [pathlib], [os], [input], [dotenv],
    [json], GitPython, [uuid] and [datetime].  A query reads the state; a
    command may change it.  Any of them may raise. *)
Record Sys (Ext : Type) := mkSys {
  (* pathlib.Path *)
  path_exists : PurePath -> Ext -> Res bool;
  path_is_dir : PurePath -> Ext -> Res bool;
  path_is_file : PurePath -> Ext -> Res bool;
  path_iterdir_any : PurePath -> Ext -> Res bool;
  path_mkdir : PurePath -> bool -> bool -> Ext -> Res unit * Ext;
  path_touch : PurePath -> Ext -> Res unit * Ext;
  path_home : Ext -> PurePath;
  (* builtins, os, dotenv, json *)
  input : string -> Ext -> Res string * Ext;
  load_dotenv : Ext -> Res unit * Ext;
  getenv : string -> Ext -> option string;
  json_load : PurePath -> Ext -> Res (gmap string string);
  read_text : PurePath -> Ext -> Res string;
  (* git.Repo, by the path the repository was opened with *)
  Repo : string -> Ext -> Res unit;
  is_dirty : string -> Ext -> Res bool;
  untracked_files : string -> Ext -> Res (list string);
  git_add_all : string -> Ext -> Res unit * Ext;
  index_commit : string -> string -> Ext -> Res unit * Ext;
  remote_origin : string -> Ext -> Res unit;
  remote_url : string -> Ext -> Res string;
  remote_set_url : string -> string -> Ext -> Res unit * Ext;
  remote_push : string -> string -> Ext -> Res unit * Ext;
  clone_from : string -> string -> Ext -> Res unit * Ext;
  (* uuid, datetime, urllib *)
  uuid4 : Ext -> string * Ext;
  datetime_now : Ext -> nat * Ext;
  netloc_rejected : string -> bool
}.

Arguments path_exists {Ext} _ _ _.
Arguments path_is_dir {Ext} _ _ _.
Arguments path_is_file {Ext} _ _ _.
Arguments path_iterdir_any {Ext} _ _ _.
Arguments path_mkdir {Ext} _ _ _ _ _.
Arguments path_touch {Ext} _ _ _.
Arguments path_home {Ext} _ _.
Arguments input {Ext} _ _ _.
Arguments load_dotenv {Ext} _ _.
Arguments getenv {Ext} _ _ _.
Arguments json_load {Ext} _ _ _.
Arguments read_text {Ext} _ _ _.
Arguments Repo {Ext} _ _ _.
Arguments is_dirty {Ext} _ _ _.
Arguments untracked_files {Ext} _ _ _.
Arguments git_add_all {Ext} _ _ _.
Arguments index_commit {Ext} _ _ _ _.
Arguments remote_origin {Ext} _ _ _.
Arguments remote_url {Ext} _ _ _.
Arguments remote_set_url {Ext} _ _ _ _.
Arguments remote_push {Ext} _ _ _ _.
Arguments clone_from {Ext} _ _ _ _.
Arguments uuid4 {Ext} _ _.
Arguments datetime_now {Ext} _ _.
Arguments netloc_rejected {Ext} _ _.

(** The values kept in an operation dictionary: [None], strings, booleans,
    [datetime] values (seconds counted from [datetime.min]) and
    dictionaries. *)
#[local] Set Warnings "-register-all".
Inductive PyVal : Type :=
| VNone
| VStr (s : string)
| VBool (b : bool)
| VTime (t : nat)
| VDict (d : list (string * PyVal)).
#[local] Set Warnings "register-all".

(** The logger is called with a level and a message; the sequence of the
    calls is kept.  (Which of them reach the console and the log file is
    for the handlers of [logging] to decide.) *)
Inductive level := DEBUG | INFO | WARNING | ERROR.

Record World (Ext : Type) := mkWorld {
  ext : Ext;
  log : list (level * string)
}.

Arguments mkWorld {Ext} _ _.
Arguments ext {Ext} _.
Arguments log {Ext} _.

Section Model.

Context {Ext : Type} (sys : Sys Ext).

Abbreviation W := (World Ext).

(** A query of the outside world. *)
Definition ask {A : Type} (q : Ext -> Res A) : M W A :=
  fun w => (q (ext w), w).

(** A command on the outside world. *)
Definition act {A : Type} (f : Ext -> Res A * Ext) : M W A :=
  fun w => let '(r, e) := f (ext w) in (r, mkWorld e (log w)).

Definition logger (l : level) (msg : string) : M W unit :=
  fun w => (Ok tt, mkWorld (ext w) (log w ++ [(l, msg)])).

(** ** mcp/file_ops.py: directories and files *)

(** [FileOperations.create_directory]. *)
Definition create_directory {T : Type} `{Truthy T}
    (directory_path : PurePath) (dry_run : T) : M W bool :=
  try_except
    (let path_obj := directory_path in
     let* ex := ask (path_exists sys path_obj) in
     if ex : bool then
       let* d := ask (path_is_dir sys path_obj) in
       if d : bool then
         logger DEBUG ("Directory already exists: " +:+ path_str directory_path) ;;;
         ret true
       else
         logger ERROR ("Path exists but is not a directory: "
                       +:+ path_str directory_path) ;;;
         ret false
     else if truthy dry_run then
       logger INFO ("[DRY RUN] Would create directory: "
                    +:+ path_str directory_path) ;;;
       ret true
     else
       act (path_mkdir sys path_obj true true) ;;;
       logger INFO ("Created directory: " +:+ path_str directory_path) ;;;
       ret true)
    (fun e =>
       match e with
       | PermissionError =>
           Some (logger ERROR ("Permission denied creating directory: "
                               +:+ path_str directory_path) ;;;
                 ret false)
       | _ =>
           if is_Exception e then
             Some (logger ERROR ("Failed to create directory "
                                 +:+ path_str directory_path +:+ ": "
                                 +:+ exn_str e) ;;;
                   ret false)
           else None
       end).

(** [FileOperations.create_file]. *)
Definition create_file {T : Type} `{Truthy T}
    (file_path : string) (dry_run : T) (overwrite : bool) : M W bool :=
  try_except
    (let path_obj := Path file_path in
     if negb (is_valid_filename (name path_obj)) then
       logger ERROR ("Invalid filename: " +:+ name path_obj) ;;;
       ret false
     else
       let create :=
         let* ok := create_directory (parent path_obj) dry_run in
         if negb ok then ret false
         else if truthy dry_run then
           logger INFO ("[DRY RUN] Would create file: " +:+ file_path) ;;;
           ret true
         else
           act (path_touch sys path_obj) ;;;
           logger INFO ("Created file: " +:+ file_path) ;;;
           ret true in
       let overwrite_or_create :=
         if truthy dry_run then
           logger INFO ("[DRY RUN] Would overwrite file: " +:+ file_path) ;;;
           ret true
         else create in
       let* ex := ask (path_exists sys path_obj) in
       if ex : bool then
         if negb overwrite then
           let* response :=
             act (input sys ("File " +:+ file_path
                             +:+ " already exists. Overwrite? (y/N): ")) in
           if negb (String.eqb (lower response) "y") then
             logger INFO "File creation cancelled." ;;;
             ret false
           else overwrite_or_create
         else overwrite_or_create
       else create)
    (fun e =>
       match e with
       | PermissionError =>
           Some (logger ERROR ("Permission denied creating file: " +:+ file_path) ;;;
                 ret false)
       | _ =>
           if is_Exception e then
             Some (logger ERROR ("Failed to create file " +:+ file_path +:+ ": "
                                 +:+ exn_str e) ;;;
                   ret false)
           else None
       end).

(** [FileOperations.add_file_to_section]. *)
Definition add_file_to_section {T : Type} `{Truthy T}
    (repo_path section filename : string) (dry_run : T) (overwrite : bool)
    : M W bool :=
  try_except
    (let repo_path_obj := Path repo_path in
     let* ex := ask (path_exists sys repo_path_obj) in
     if negb ex then
       logger ERROR ("Repository path does not exist: " +:+ repo_path) ;;;
       ret false
     else
       let* d := ask (path_is_dir sys repo_path_obj) in
       if negb d then
         logger ERROR ("Repository path is not a directory: " +:+ repo_path) ;;;
         ret false
       else if negb (is_valid_path section) then
         logger ERROR ("Invalid section path: " +:+ section) ;;;
         ret false
       else
         let section_path := joinpath repo_path_obj section in
         let file_path := joinpath section_path filename in
         create_file (path_str file_path) dry_run overwrite)
    (fun e =>
       if is_Exception e then
         Some (logger ERROR ("Failed to add file to section: " +:+ exn_str e) ;;;
               ret false)
       else None).

(** ** mcp/config.py *)

Record MCPConfig := mkConfig {
  config_dir : PurePath;
  config_file : PurePath;
  default_config : gmap string string
}.

(** [MCPConfig.__init__]: loads [.env] and makes sure that the
    configuration directory exists. *)
Definition MCPConfig_init : M W MCPConfig :=
  let* home := ask (fun e => Ok (path_home sys e)) in
  let config_dir := joinpath home ".mcp" in
  let config_file := joinpath config_dir "config.json" in
  let default_config : gmap string string :=
    <["github_token" := EmptyString]>
      (<["default_branch" := "main"]> (<["log_level" := "INFO"]> ∅)) in
  act (load_dotenv sys) ;;;
  act (path_mkdir sys config_dir false true) ;;;
  ret (mkConfig config_dir config_file default_config).

(** [MCPConfig.load_config]. *)
Definition load_config (self : MCPConfig) : M W (gmap string string) :=
  let config := default_config self in
  let* ex := ask (path_exists sys (config_file self)) in
  let* config :=
    (if ex : bool then
       try_except
         (let* file_config := ask (json_load sys (config_file self)) in
          logger DEBUG ("Loaded configuration from "
                        +:+ path_str (config_file self)) ;;;
          ret (file_config ∪ config))
         (fun e =>
            if is_Exception e then
              Some (logger WARNING ("Failed to load config file: " +:+ exn_str e) ;;;
                    ret config)
            else None)
     else ret config) in
  let* github_token := ask (fun e => Ok (getenv sys "GITHUB_TOKEN" e)) in
  match github_token with
  | Some t =>
      if truthy t then
        logger DEBUG "Using GitHub token from environment variable" ;;;
        ret (<["github_token" := t]> config)
      else ret config
  | None => ret config
  end.

(** [MCPConfig.get_github_token]. *)
Definition get_github_token (self : MCPConfig) : M W (option string) :=
  let* config := load_config self in
  let token := config !! "github_token" in
  if negb (truthy token) then
    logger ERROR "GitHub token not found. Please run 'mcp init' or set GITHUB_TOKEN environment variable." ;;;
    ret None
  else ret token.

(** [MCPConfig.get_default_branch]. *)
Definition get_default_branch (self : MCPConfig) : M W string :=
  let* config := load_config self in
  ret (default "main" (config !! "default_branch")).

(** ** mcp/git_ops.py *)

(** [GitOperations.__init__] builds its own [MCPConfig]. *)
Definition GitOperations_init : M W MCPConfig := MCPConfig_init.

(** [GitOperations.is_git_repository]. *)
Definition is_git_repository (path : string) : M W bool :=
  try_except
    (ask (Repo sys path) ;;; ret true)
    (fun e =>
       match e with
       | InvalidGitRepositoryError => Some (ret false)
       | _ => if is_Exception e then Some (ret false) else None
       end).

(** The two [except] clauses that close [clone_repository] and
    [push_changes].  Both recognise an authentication failure first, then
    one more cause ([second]), then any other Git error; any other
    [Exception] falls to the second clause. *)
Definition git_error_handler (second : string) (second_msg other_msg failed_msg : string)
    (e : exn) : option (M W bool) :=
  match e with
  | GitCommandError msg =>
      Some ((if contains "Authentication failed" msg
                || contains "access denied" (lower msg)
             then logger ERROR "Authentication failed. Please check your GitHub token."
             else if contains second (lower msg)
             then logger ERROR second_msg
             else logger ERROR (other_msg +:+ msg)) ;;;
            ret false)
  | _ =>
      if is_Exception e then
        Some (logger ERROR (failed_msg +:+ exn_str e) ;;; ret false)
      else None
  end.

(** The body of the [try] of [GitOperations.clone_repository]. *)
Definition clone_repository_body {T : Type} `{Truthy T}
    (repo_url local_path : string) (dry_run : T) : M W bool :=
    (if negb (is_valid_repo_url (netloc_rejected sys) repo_url) then
       logger ERROR ("Invalid repository URL: " +:+ repo_url) ;;;
       ret false
     else
       let local_path_obj := Path local_path in
       let clone :=
         if truthy dry_run then
           logger INFO ("[DRY RUN] Would clone " +:+ repo_url +:+ " to "
                        +:+ local_path) ;;;
           ret true
         else
           act (path_mkdir sys (parent local_path_obj) true true) ;;;
           logger INFO ("Cloning repository " +:+ repo_url +:+ " to "
                        +:+ local_path +:+ "...") ;;;
           act (clone_from sys repo_url local_path) ;;;
           logger INFO ("Successfully cloned repository to " +:+ local_path) ;;;
           ret true in
       let* ex := ask (path_exists sys local_path_obj) in
       if ex : bool then
         let* d := ask (path_is_dir sys local_path_obj) in
         let* nonempty_dir :=
           (if d : bool then ask (path_iterdir_any sys local_path_obj)
            else ret false) in
         if nonempty_dir : bool then
           (let* g := is_git_repository local_path in
            if g : bool then
              logger WARNING ("Directory " +:+ local_path
                              +:+ " already contains a Git repository")
            else
              logger WARNING ("Directory " +:+ local_path +:+ " is not empty")) ;;;
           let* response :=
             act (input sys ("Directory " +:+ local_path
                             +:+ " already exists. Continue anyway? (y/N): ")) in
           if negb (String.eqb (lower response) "y") then
             logger INFO "Clone operation cancelled." ;;;
             ret false
           else clone
         else
           let* f := ask (path_is_file sys local_path_obj) in
           if f : bool then
             logger ERROR ("Path " +:+ local_path
                           +:+ " exists and is a file, not a directory") ;;;
             ret false
           else clone
       else clone).

(** [GitOperations.clone_repository]. *)
Definition clone_repository {T : Type} `{Truthy T}
    (repo_url local_path : string) (dry_run : T) : M W bool :=
  try_except
    (clone_repository_body repo_url local_path dry_run)
    (git_error_handler "not found"
       ("Repository not found: " +:+ repo_url)
       "Git error during clone: " "Failed to clone repository: ").

(** The body of the [try] of [GitOperations.push_changes]. *)
Definition push_changes_body {T : Type} `{Truthy T}
    (self : MCPConfig) (local_path commit_message : string) (dry_run : T)
    : M W bool :=
    (let* g := is_git_repository local_path in
     if negb g then
       logger ERROR ("Path " +:+ local_path +:+ " is not a valid Git repository") ;;;
       ret false
     else
       ask (Repo sys local_path) ;;;
       let* dirty := ask (is_dirty sys local_path) in
       let* untracked :=
         (if dirty : bool then ret []
          else ask (untracked_files sys local_path)) in
       if negb dirty && negb (match untracked with [] => false | _ => true end) then
         logger INFO "No changes to commit" ;;;
         ret true
       else if truthy dry_run then
         logger INFO ("[DRY RUN] Would stage all changes and commit with message: '"
                      +:+ commit_message +:+ "'") ;;;
         logger INFO "[DRY RUN] Would push to remote repository" ;;;
         ret true
       else
         act (git_add_all sys local_path) ;;;
         logger INFO "Staged all changes" ;;;
         act (index_commit sys local_path commit_message) ;;;
         logger INFO ("Committed changes with message: '" +:+ commit_message
                      +:+ "'") ;;;
         let* default_branch := get_default_branch self in
         ask (remote_origin sys local_path) ;;;
         let* github_token := get_github_token self in
         (if truthy github_token then
            let token := default EmptyString github_token in
            let* url := ask (remote_url sys local_path) in
            if startswith "https://github.com/" url then
              let auth_url :=
                replace "https://github.com/"
                        ("https://" +:+ token +:+ "@github.com/") url in
              act (remote_set_url sys local_path auth_url)
            else ret tt
          else ret tt) ;;;
         logger INFO "Pushing changes to remote repository..." ;;;
         act (remote_push sys local_path default_branch) ;;;
         logger INFO "Successfully pushed changes to GitHub" ;;;
         ret true).

(** [GitOperations.push_changes]. *)
Definition push_changes {T : Type} `{Truthy T}
    (self : MCPConfig) (local_path commit_message : string) (dry_run : T)
    : M W bool :=
  try_except
    (push_changes_body self local_path commit_message dry_run)
    (git_error_handler "rejected"
       "Push rejected. You may need to pull changes first."
       "Git error during push: " "Failed to push changes: ").

(** ** mcp/server.py: the operation store *)

(** [ServerConfig]: the fields the routes read, and the directory of the
    module file, from which the static files are found. *)
Record ServerConfig := mkServerConfig {
  api_key : string;
  module_dir : PurePath
}.

(** The state of the server module: the global [active_operations] and the
    world below it. *)
Record ServerState := mkServer {
  active_operations : gmap string (gmap string PyVal);
  world : W
}.

Abbreviation SM := (M ServerState).

(** A computation of the modules below runs on the world and leaves the
    store alone. *)
Definition lift {A : Type} (m : M W A) : SM A :=
  fun s => let '(r, w) := m (world s) in (r, mkServer (active_operations s) w).

Definition get_operations : SM (gmap string (gmap string PyVal)) :=
  fun s => (Ok (active_operations s), s).

Definition set_operation (operation_id : string) (op : gmap string PyVal)
    : SM unit :=
  fun s => (Ok tt, mkServer (<[operation_id := op]> (active_operations s)) (world s)).

Definition now : SM nat :=
  lift (act (fun e => let '(t, e') := datetime_now sys e in (Ok t, e'))).

Definition opt_dict (o : option (list (string * PyVal))) : PyVal :=
  match o with Some d => VDict d | None => VNone end.

Definition opt_str (o : option string) : PyVal :=
  match o with Some s => VStr s | None => VNone end.

(** The dictionary that [create_operation] stores. *)
Definition new_operation (operation_id operation_type : string)
    (params : list (string * PyVal)) (created_at : nat) : gmap string PyVal :=
  <["id" := VStr operation_id]>
    (<["type" := VStr operation_type]>
     (<["status" := VStr "pending"]>
      (<["message" := VStr ("Operation " +:+ operation_type +:+ " created")]>
       (<["params" := VDict params]>
        (<["created_at" := VTime created_at]>
         (<["completed_at" := VNone]>
          (<["result" := VNone]>
           (<["error" := VNone]> ∅)))))))).

(** [create_operation]. *)
Definition create_operation (operation_type : string)
    (params : list (string * PyVal)) : SM string :=
  let* operation_id :=
    lift (act (fun e => let '(u, e') := uuid4 sys e in (Ok u, e'))) in
  let* created_at := now in
  set_operation operation_id
    (new_operation operation_id operation_type params created_at) ;;;
  ret operation_id.

(** [update_operation]. *)
Definition update_operation (operation_id status message : string)
    (result : option (list (string * PyVal))) (error : option string)
    : SM unit :=
  let* ops := get_operations in
  match ops !! operation_id with
  | Some op =>
      let op :=
        <["status" := VStr status]>
          (<["message" := VStr message]>
           (<["result" := opt_dict result]>
            (<["error" := opt_str error]> op))) in
      set_operation operation_id op ;;;
      if str_in ["completed"; "failed"] status then
        let* t := now in
        set_operation operation_id (<["completed_at" := VTime t]> op)
      else ret tt
  | None => ret tt
  end.

(** [execute_clone_operation]. *)
Definition execute_clone_operation (operation_id repo_url local_path : string)
    : SM unit :=
  try_except
    (update_operation operation_id "running" "Cloning repository..." None None ;;;
     let* config := lift MCPConfig_init in
     let* git_ops := lift GitOperations_init in
     if negb (is_valid_repo_url (netloc_rejected sys) repo_url) then
       raise (ValueError ("Invalid repository URL: " +:+ repo_url))
     else
       let* result := lift (clone_repository repo_url local_path false) in
       update_operation operation_id "completed" "Repository cloned successfully"
         (Some [("path", VStr local_path)]) None ;;;
       lift (logger INFO ("Clone operation " +:+ operation_id
                          +:+ " completed successfully")))
    (fun e =>
       if is_Exception e then
         Some (let error_msg := exn_str e in
               update_operation operation_id "failed" "Clone operation failed"
                 None (Some error_msg) ;;;
               lift (logger ERROR ("Clone operation " +:+ operation_id
                                   +:+ " failed: " +:+ error_msg)))
       else None).

(** [execute_push_operation]. *)
Definition execute_push_operation (operation_id repo_path commit_message : string)
    : SM unit :=
  try_except
    (update_operation operation_id "running" "Pushing changes..." None None ;;;
     let* config := lift MCPConfig_init in
     let* git_ops := lift GitOperations_init in
     let* g := lift (is_git_repository repo_path) in
     if negb g then
       raise (ValueError ("Not a valid Git repository: " +:+ repo_path))
     else
       let* result := lift (push_changes git_ops repo_path commit_message false) in
       update_operation operation_id "completed" "Changes pushed successfully"
         (Some [("commit_message", VStr commit_message)]) None ;;;
       lift (logger INFO ("Push operation " +:+ operation_id
                          +:+ " completed successfully")))
    (fun e =>
       if is_Exception e then
         Some (let error_msg := exn_str e in
               update_operation operation_id "failed" "Push operation failed"
                 None (Some error_msg) ;;;
               lift (logger ERROR ("Push operation " +:+ operation_id
                                   +:+ " failed: " +:+ error_msg)))
       else None).

(** [execute_add_file_operation].  The call of [add_file_to_section] has
    four positional arguments: [content] lands on the parameter
    [dry_run], and [overwrite] keeps its default. *)
Definition execute_add_file_operation
    (operation_id repo_path section filename : string) (content : option string)
    : SM unit :=
  try_except
    (update_operation operation_id "running" "Creating file..." None None ;;;
     if negb (is_valid_filename filename) then
       raise (ValueError ("Invalid filename: " +:+ filename))
     else if negb (is_valid_path repo_path) then
       raise (ValueError ("Invalid repository path: " +:+ repo_path))
     else
       let* result :=
         lift (add_file_to_section repo_path section filename content false) in
       update_operation operation_id "completed" "File created successfully"
         (Some [("path", VBool result); ("section", VStr section);
                ("filename", VStr filename)]) None ;;;
       lift (logger INFO ("Add file operation " +:+ operation_id
                          +:+ " completed successfully")))
    (fun e =>
       if is_Exception e then
         Some (let error_msg := exn_str e in
               update_operation operation_id "failed" "Add file operation failed"
                 None (Some error_msg) ;;;
               lift (logger ERROR ("Add file operation " +:+ operation_id
                                   +:+ " failed: " +:+ error_msg)))
       else None).

(** ** mcp/server.py: the routes *)

Record CloneRequest := mkCloneRequest {
  clone_repo_url : string;
  clone_local_path : string
}.

Record PushRequest := mkPushRequest {
  push_repo_path : string;
  push_commit_message : string
}.

Record AddFileRequest := mkAddFileRequest {
  add_repo_path : string;
  add_section : string;
  add_filename : string;
  add_content : option string
}.

Record OperationResponse := mkResponse {
  operation_id : string;
  status : string;
  message : string;
  created_at : nat;
  completed_at : option nat;
  result : option (list (string * PyVal));
  error : option string
}.

Record ServerStatus := mkStatus {
  server_status : string;
  version : string;
  active_count : nat;
  uptime : string
}.

(** A required field of a model: a missing key or a value of another type
    is a validation error. *)
Definition required_str (kw : gmap string PyVal) (k : string) : Res string :=
  match kw !! k with
  | Some (VStr s) => Ok s
  | _ => Raise (ValidationError k)
  end.

Definition required_time (kw : gmap string PyVal) (k : string) : Res nat :=
  match kw !! k with
  | Some (VTime t) => Ok t
  | _ => Raise (ValidationError k)
  end.

(** An optional field: a missing key and [None] both give [None]. *)
Definition optional_time (kw : gmap string PyVal) (k : string)
    : Res (option nat) :=
  match kw !! k with
  | None | Some VNone => Ok None
  | Some (VTime t) => Ok (Some t)
  | Some _ => Raise (ValidationError k)
  end.

Definition optional_dict (kw : gmap string PyVal) (k : string)
    : Res (option (list (string * PyVal))) :=
  match kw !! k with
  | None | Some VNone => Ok None
  | Some (VDict d) => Ok (Some d)
  | Some _ => Raise (ValidationError k)
  end.

Definition optional_str (kw : gmap string PyVal) (k : string)
    : Res (option string) :=
  match kw !! k with
  | None | Some VNone => Ok None
  | Some (VStr s) => Ok (Some s)
  | Some _ => Raise (ValidationError k)
  end.

Definition res_bind {A B : Type} (r : Res A) (k : A -> Res B) : Res B :=
  match r with Ok a => k a | Raise e => Raise e end.

(** [OperationResponse], called with the entries of a dictionary as
    keyword arguments, as pydantic builds a model: the fields declared
    with [Field(...)] are required, the
    others default to [None], and keys that name no field are ignored. *)
Definition OperationResponse_init (kw : gmap string PyVal)
    : Res OperationResponse :=
  res_bind (required_str kw "operation_id") (fun operation_id =>
  res_bind (required_str kw "status") (fun status =>
  res_bind (required_str kw "message") (fun message =>
  res_bind (required_time kw "created_at") (fun created_at =>
  res_bind (optional_time kw "completed_at") (fun completed_at =>
  res_bind (optional_dict kw "result") (fun result =>
  res_bind (optional_str kw "error") (fun error =>
  Ok (mkResponse operation_id status message created_at completed_at
        result error)))))))).

Definition of_res {A : Type} (r : Res A) : SM A := fun s => (r, s).

(** The jobs that a route hands to [BackgroundTasks]; they run once the
    response has been produced. *)
Inductive Task : Type :=
| CloneTask (operation_id repo_url local_path : string)
| PushTask (operation_id repo_path commit_message : string)
| AddFileTask (operation_id repo_path section filename : string)
              (content : option string).

Definition run_task (t : Task) : SM unit :=
  match t with
  | CloneTask i u p => execute_clone_operation i u p
  | PushTask i p m => execute_push_operation i p m
  | AddFileTask i p s f c => execute_add_file_operation i p s f c
  end.

Variable server_config : ServerConfig.

(** [verify_api_key]. *)
Definition verify_api_key (credentials : string) : SM string :=
  if negb (String.eqb credentials (api_key server_config)) then
    raise (HTTPException 401 "Invalid API key")
  else ret credentials.

(** [active_operations[operation_id]]. *)
Definition operation_at (operation_id : string) : SM (gmap string PyVal) :=
  let* ops := get_operations in
  match ops !! operation_id with
  | Some op => ret op
  | None => raise (KeyError operation_id)
  end.

(** [POST /api/clone]. *)
Definition clone_repository_route (request : CloneRequest) (credentials : string)
    : SM (OperationResponse * list Task) :=
  verify_api_key credentials ;;;
  let* operation_id :=
    create_operation "clone"
      [("repo_url", VStr (clone_repo_url request));
       ("local_path", VStr (clone_local_path request))] in
  let background_tasks :=
    [CloneTask operation_id (clone_repo_url request) (clone_local_path request)] in
  let* operation := operation_at operation_id in
  let* response := of_res (OperationResponse_init operation) in
  ret (response, background_tasks).

(** [POST /api/push]. *)
Definition push_changes_route (request : PushRequest) (credentials : string)
    : SM (OperationResponse * list Task) :=
  verify_api_key credentials ;;;
  let* operation_id :=
    create_operation "push"
      [("repo_path", VStr (push_repo_path request));
       ("commit_message", VStr (push_commit_message request))] in
  let background_tasks :=
    [PushTask operation_id (push_repo_path request) (push_commit_message request)] in
  let* operation := operation_at operation_id in
  let* response := of_res (OperationResponse_init operation) in
  ret (response, background_tasks).

(** [POST /api/add-file]. *)
Definition add_file_route (request : AddFileRequest) (credentials : string)
    : SM (OperationResponse * list Task) :=
  verify_api_key credentials ;;;
  let* operation_id :=
    create_operation "add-file"
      [("repo_path", VStr (add_repo_path request));
       ("section", VStr (add_section request));
       ("filename", VStr (add_filename request));
       ("content", opt_str (add_content request))] in
  let background_tasks :=
    [AddFileTask operation_id (add_repo_path request) (add_section request)
       (add_filename request) (add_content request)] in
  let* operation := operation_at operation_id in
  let* response := of_res (OperationResponse_init operation) in
  ret (response, background_tasks).

(** [GET /api/operations/{operation_id}]. *)
Definition get_operation (operation_id : string) (credentials : string)
    : SM OperationResponse :=
  verify_api_key credentials ;;;
  let* ops := get_operations in
  if negb (bool_decide (is_Some (ops !! operation_id))) then
    raise (HTTPException 404 "Operation not found")
  else
    let* operation := operation_at operation_id in
    of_res (OperationResponse_init operation).

(** [op[k]] on an operation dictionary. *)
Definition item (op : gmap string PyVal) (k : string) : Res PyVal :=
  match op !! k with
  | Some v => Ok v
  | None => Raise (KeyError k)
  end.

Definition is_str (v : PyVal) (s : string) : bool :=
  match v with VStr s' => String.eqb s' s | _ => false end.

Definition fallback_html : string :=
  "<h1>MCP Server</h1><p>Web interface not found.</p>".

(** [GET /]: the static page when it is installed, a fixed page otherwise. *)
Definition root_route : SM string :=
  let static_path :=
    joinpath (joinpath (parent (module_dir server_config)) "static") "index.html" in
  let* ex := lift (ask (path_exists sys static_path)) in
  if ex : bool then lift (ask (read_text sys static_path))
  else ret fallback_html.

Fixpoint count_active (ops : list (gmap string PyVal)) : Res nat :=
  match ops with
  | [] => Ok 0
  | op :: rest =>
      res_bind (item op "status") (fun st =>
      res_bind (count_active rest) (fun n =>
      Ok (if is_str st "pending" || is_str st "running" then S n else n)))
  end.

(** [GET /status]. *)
Definition get_status : SM ServerStatus :=
  let* ops := get_operations in
  let* n := of_res (count_active (snd <$> map_to_list ops)) in
  ret (mkStatus "running" "1.0.0" n "N/A").

Fixpoint responses_of (ops : list (gmap string PyVal))
    : Res (list OperationResponse) :=
  match ops with
  | [] => Ok []
  | op :: rest =>
      res_bind (OperationResponse_init op) (fun r =>
      res_bind (responses_of rest) (fun rs => Ok (r :: rs)))
  end.

Fixpoint insert_newest (r : OperationResponse) (l : list OperationResponse)
    : list OperationResponse :=
  match l with
  | [] => [r]
  | y :: l' =>
      if created_at y <=? created_at r then r :: l
      else y :: insert_newest r l'
  end.

(** [sorted(operations, key=created_at, reverse=True)]. *)
Definition sorted_newest_first (l : list OperationResponse)
    : list OperationResponse :=
  foldr insert_newest [] l.

(** [GET /api/operations].  The map enumerates the operations in its own
    order where the dictionary keeps the order of insertion; the two differ
    only in how responses of equal [created_at] follow each other. *)
Definition list_operations (credentials : string) : SM (list OperationResponse) :=
  verify_api_key credentials ;;;
  let* ops := get_operations in
  let* operations := of_res (responses_of (snd <$> map_to_list ops)) in
  ret (sorted_newest_first operations).

(** An event of the stream: the object given to [json.dumps]. *)
Definition Event : Type := list (string * PyVal).

(** [GET /events], up to the first event of the generator. *)
Definition stream_events (credentials : string) : SM (nat * Event) :=
  verify_api_key credentials ;;;
  let* last_update := now in
  let* t := now in
  ret (last_update,
       [("type", VStr "connected");
        ("message", VStr "Connected to MCP Server events");
        ("timestamp", VTime t)]).

(** [operation.get(k, d)]. *)
Definition get_or (op : gmap string PyVal) (k : string) (d : PyVal) : PyVal :=
  default d (op !! k).

(** [a < b] on two [datetime] values. *)
Definition time_lt (a b : PyVal) : Res bool :=
  match a, b with
  | VTime x, VTime y => Ok (x <? y)
  | _, _ => Raise (TypeError "'<' not supported")
  end.

(** [bool(v)]. *)
Definition py_truthy (v : PyVal) : bool :=
  match v with
  | VNone => false
  | VStr s => nonempty s
  | VBool b => b
  | VTime _ => true
  | VDict d => match d with [] => false | _ => true end
  end.

(** The body of the loop over the operations: the event to send for one
    operation, if any. *)
Definition operation_update (current_time : nat) (operation_id : string)
    (operation : gmap string PyVal) : Res (option Event) :=
  res_bind (item operation "created_at") (fun created =>
  res_bind (time_lt (get_or operation "last_sent_at" (VTime 0))
                    (get_or operation "updated_at" created)) (fun due =>
  if due : bool then
    res_bind (item operation "status") (fun st =>
    res_bind (item operation "message") (fun msg =>
    let event_data :=
      [("type", VStr "operation_update"); ("operation_id", VStr operation_id);
       ("status", st); ("message", msg); ("timestamp", VTime current_time)] in
    if is_str st "completed" && py_truthy (get_or operation "result" VNone) then
      res_bind (item operation "result") (fun r =>
      Ok (Some (event_data ++ [("result", r)])))
    else if is_str st "failed" && py_truthy (get_or operation "error" VNone) then
      res_bind (item operation "error") (fun r =>
      Ok (Some (event_data ++ [("error", r)])))
    else Ok (Some event_data)))
  else Ok None)).

(** The loop over [active_operations.items()]: the events sent so far are
    kept when an operation raises. *)
Fixpoint send_updates (current_time : nat)
    (items : list (string * gmap string PyVal)) (sent : list Event)
    : SM (list Event * option exn) :=
  match items with
  | [] => ret (sent, None)
  | (operation_id, operation) :: rest =>
      match operation_update current_time operation_id operation with
      | Raise e => ret (sent, Some e)
      | Ok None => send_updates current_time rest sent
      | Ok (Some ev) =>
          set_operation operation_id
            (<["last_sent_at" := VTime current_time]> operation) ;;;
          send_updates current_time rest (sent ++ [ev])
      end
  end.

(** [timedelta.seconds] of [a - b]: the seconds within the day. *)
Definition delta_seconds (a b : nat) : nat :=
  Z.to_nat ((Z.of_nat a - Z.of_nat b) mod 86400)%Z.

(** One turn of the [while True] loop of [event_generator], taken as one
    step: the events it yields and the new [last_update], or [None] when
    the loop is left through [break]. *)
Definition event_generator_pass (last_update : nat)
    : SM (list Event * option nat) :=
  let* current_time := now in
  let beat := 30 <=? delta_seconds current_time last_update in
  let heartbeat :=
    if beat then [[("type", VStr "heartbeat"); ("timestamp", VTime current_time)]]
    else [] in
  let last_update := if beat then current_time else last_update in
  let* ops := get_operations in
  let* r := send_updates current_time (map_to_list ops) heartbeat in
  match snd r with
  | None => ret (fst r, Some last_update)
  | Some e =>
      if is_Exception e then
        lift (logger ERROR ("Error in event stream: " +:+ exn_str e)) ;;;
        let* t := now in
        ret (fst r ++ [[("type", VStr "error"); ("message", VStr (exn_str e));
                        ("timestamp", VTime t)]], None)
      else raise e
  end.

(** The calls a client can make, and one turn of an open event stream. *)
Inductive ApiCall : Type :=
| GetRoot
| GetStatus
| PostClone (request : CloneRequest) (credentials : string)
| PostPush (request : PushRequest) (credentials : string)
| PostAddFile (request : AddFileRequest) (credentials : string)
| GetOperation (operation_id : string) (credentials : string)
| ListOperations (credentials : string)
| StreamEvents (credentials : string)
| StreamTurn (last_update : nat).

Inductive ApiReply : Type :=
| HtmlReply (body : string)
| StatusReply (s : ServerStatus)
| OperationReply (r : OperationResponse)
| OperationsReply (l : list OperationResponse)
| EventsReply (events : list Event) (last_update : option nat).

Fixpoint run_tasks (ts : list Task) : SM unit :=
  match ts with
  | [] => ret tt
  | t :: rest => run_task t ;;; run_tasks rest
  end.

(** A route that returns starts its background tasks after the response;
    a route that raises starts none. *)
Definition respond_then_run (route : SM (OperationResponse * list Task))
    : SM ApiReply :=
  let* r := route in
  run_tasks (snd r) ;;;
  ret (OperationReply (fst r)).

(** The server, one call at a time. *)
Definition serve (c : ApiCall) : SM ApiReply :=
  match c with
  | GetRoot => let* b := root_route in ret (HtmlReply b)
  | GetStatus => let* s := get_status in ret (StatusReply s)
  | PostClone request credentials =>
      respond_then_run (clone_repository_route request credentials)
  | PostPush request credentials =>
      respond_then_run (push_changes_route request credentials)
  | PostAddFile request credentials =>
      respond_then_run (add_file_route request credentials)
  | GetOperation operation_id credentials =>
      let* r := get_operation operation_id credentials in ret (OperationReply r)
  | ListOperations credentials =>
      let* l := list_operations credentials in ret (OperationsReply l)
  | StreamEvents credentials =>
      let* r := stream_events credentials in
      ret (EventsReply [snd r] (Some (fst r)))
  | StreamTurn last_update =>
      let* r := event_generator_pass last_update in
      ret (EventsReply (fst r) (snd r))
  end.

End Model.

Arguments mkServer {Ext} _ _.
Arguments active_operations {Ext} _.
Arguments world {Ext} _.

(** ** A small implementation of the outside world

    Files and directories are kept by location (the list of names from the
    root).  A directory may be read-only.  Path resolution walks the names
    of a path from the root or from the working directory, as the kernel
    does on a file system without symbolic links: each step needs a
    directory to step from, and [..] steps to its parent. *)
Module Toy.

Inductive node : Type :=
| File (content : string)
| Dir (writable : bool).

Record repo := mkRepo {
  dirty : bool;
  untracked : list string;
  staged : bool;
  commits : list string;
  origin : option string;
  pushed : list (string * string)
}.

Record state := mkExt {
  fs : gmap (list string) node;
  cwd : list string;
  home : string;
  stdin : list string;
  environ : gmap string string;
  dotenv : gmap string string;
  json_files : gmap (list string) (gmap string string);
  repos : gmap (list string) repo;
  remote_errors : gmap string string;
  uuids : list string;
  clock : nat
}.

Definition with_fs (e : state) (f : gmap (list string) node) : state :=
  mkExt f (cwd e) (home e) (stdin e) (environ e) (dotenv e) (json_files e)
        (repos e) (remote_errors e) (uuids e) (clock e).

Definition with_repos (e : state) (r : gmap (list string) repo) : state :=
  mkExt (fs e) (cwd e) (home e) (stdin e) (environ e) (dotenv e) (json_files e)
        r (remote_errors e) (uuids e) (clock e).

Definition node_at (f : gmap (list string) node) (loc : list string)
    : option node :=
  match loc with
  | [] => Some (Dir true)
  | _ => f !! loc
  end.

Fixpoint walk (f : gmap (list string) node) (cur ns : list string)
    : Res (list string) :=
  match ns with
  | [] => Ok cur
  | n :: rest =>
      match node_at f cur with
      | Some (Dir _) =>
          walk f (if String.eqb n ".." then removelast cur else cur ++ [n]) rest
      | Some (File _) => Raise NotADirectoryError
      | None => Raise FileNotFoundError
      end
  end.

Definition locate (e : state) (p : PurePath) : Res (list string) :=
  walk (fs e) (if nonempty (root p) then [] else cwd e) (names p).

Definition lookup_path (e : state) (p : PurePath) : option node :=
  match locate e p with
  | Ok loc => node_at (fs e) loc
  | Raise _ => None
  end.

Definition exists_ (p : PurePath) (e : state) : Res bool :=
  Ok (match lookup_path e p with Some _ => true | None => false end).

Definition is_dir (p : PurePath) (e : state) : Res bool :=
  Ok (match lookup_path e p with Some (Dir _) => true | _ => false end).

Definition is_file (p : PurePath) (e : state) : Res bool :=
  Ok (match lookup_path e p with Some (File _) => true | _ => false end).

Definition iterdir_any (p : PurePath) (e : state) : Res bool :=
  match locate e p with
  | Raise x => Raise x
  | Ok loc =>
      match node_at (fs e) loc with
      | Some (Dir _) =>
          Ok (existsb (fun k => match k with
                                | [] => false
                                | _ => bool_decide (removelast k = loc)
                                end)
                      (fst <$> map_to_list (fs e)))
      | Some (File _) => Raise NotADirectoryError
      | None => Raise FileNotFoundError
      end
  end.

(** A new entry needs a writable directory above it. *)
Definition create_entry (e : state) (loc : list string) (n : node)
    : Res unit * state :=
  match node_at (fs e) (removelast loc) with
  | Some (Dir true) => (Ok tt, with_fs e (<[loc := n]> (fs e)))
  | Some (Dir false) => (Raise PermissionError, e)
  | Some (File _) => (Raise NotADirectoryError, e)
  | None => (Raise FileNotFoundError, e)
  end.

(** [os.mkdir]. *)
Definition os_mkdir (e : state) (p : PurePath) : Res unit * state :=
  match locate e p with
  | Raise x => (Raise x, e)
  | Ok loc =>
      match node_at (fs e) loc with
      | Some _ => (Raise FileExistsError, e)
      | None => create_entry e loc (Dir true)
      end
  end.

(** [Path.mkdir], as pathlib writes it over [os.mkdir]; the recursion on
    the parent ends at a path without names. *)
Fixpoint mkdir_fuel (fuel : nat) (p : PurePath) (parents exist_ok : bool)
    (e : state) : Res unit * state :=
  match os_mkdir e p with
  | (Ok _, e') => (Ok tt, e')
  | (Raise FileNotFoundError, _) =>
      if negb parents || match names p with [] => true | _ => false end
      then (Raise FileNotFoundError, e)
      else match fuel with
           | O => (Raise (RuntimeError "maximum recursion depth exceeded"), e)
           | S k =>
               match mkdir_fuel k (parent p) true true e with
               | (Ok _, e1) => mkdir_fuel k p false exist_ok e1
               | (Raise x, e1) => (Raise x, e1)
               end
           end
  | (Raise x, _) =>
      if negb exist_ok
         || negb (match lookup_path e p with Some (Dir _) => true | _ => false end)
      then (Raise x, e)
      else (Ok tt, e)
  end.

Definition mkdir (p : PurePath) (parents exist_ok : bool) (e : state)
    : Res unit * state :=
  mkdir_fuel (S (length (names p))) p parents exist_ok e.

(** [Path.touch]: an existing entry keeps its content. *)
Definition touch (p : PurePath) (e : state) : Res unit * state :=
  match locate e p with
  | Raise x => (Raise x, e)
  | Ok loc =>
      match node_at (fs e) loc with
      | Some _ => (Ok tt, e)
      | None => create_entry e loc (File EmptyString)
      end
  end.

Definition read_input (prompt : string) (e : state) : Res string * state :=
  match stdin e with
  | [] => (Raise EOFError, e)
  | l :: rest =>
      (Ok l, mkExt (fs e) (cwd e) (home e) rest (environ e) (dotenv e)
                   (json_files e) (repos e) (remote_errors e) (uuids e) (clock e))
  end.

(** [load_dotenv] keeps the variables that are already set. *)
Definition dotenv_load (e : state) : Res unit * state :=
  (Ok tt, mkExt (fs e) (cwd e) (home e) (stdin e) (environ e ∪ dotenv e)
                (dotenv e) (json_files e) (repos e) (remote_errors e) (uuids e)
                (clock e)).

Definition load_json (p : PurePath) (e : state) : Res (gmap string string) :=
  match locate e p with
  | Raise x => Raise x
  | Ok loc =>
      match json_files e !! loc with
      | Some d => Ok d
      | None => Raise (ValueError "Expecting value: line 1 column 1 (char 0)")
      end
  end.

Definition text_of (p : PurePath) (e : state) : Res string :=
  match lookup_path e p with
  | Some (File c) => Ok c
  | Some (Dir _) => Raise (RuntimeError "[Errno 21] Is a directory")
  | None => Raise FileNotFoundError
  end.

(** The repository opened with [Repo(path)]. *)
Definition repo_at (path : string) (e : state) : Res (list string * repo) :=
  match locate e (Path path) with
  | Raise _ => Raise NoSuchPathError
  | Ok loc =>
      match node_at (fs e) loc with
      | None => Raise NoSuchPathError
      | Some _ =>
          match repos e !! loc with
          | Some r => Ok (loc, r)
          | None => Raise InvalidGitRepositoryError
          end
      end
  end.

Definition query_repo {A : Type} (f : repo -> Res A) (path : string) (e : state)
    : Res A :=
  match repo_at path e with
  | Ok (_, r) => f r
  | Raise x => Raise x
  end.

Definition update_repo (f : repo -> Res repo) (path : string) (e : state)
    : Res unit * state :=
  match repo_at path e with
  | Ok (loc, r) =>
      match f r with
      | Ok r' => (Ok tt, with_repos e (<[loc := r']> (repos e)))
      | Raise x => (Raise x, e)
      end
  | Raise x => (Raise x, e)
  end.

Definition no_origin : exn := ValueError "Remote named 'origin' didn't exist".

Definition add_all (r : repo) : Res repo :=
  Ok (mkRepo false [] (staged r || dirty r
                       || match untracked r with [] => false | _ => true end)
             (commits r) (origin r) (pushed r)).

Definition commit (msg : string) (r : repo) : Res repo :=
  Ok (mkRepo (dirty r) (untracked r) false (commits r ++ [msg]) (origin r)
             (pushed r)).

Definition set_url (url : string) (r : repo) : Res repo :=
  match origin r with
  | Some _ => Ok (mkRepo (dirty r) (untracked r) (staged r) (commits r)
                         (Some url) (pushed r))
  | None => Raise no_origin
  end.

Definition push (errors : gmap string string) (branch : string) (r : repo)
    : Res repo :=
  match origin r with
  | Some url =>
      match errors !! url with
      | Some msg => Raise (GitCommandError msg)
      | None => Ok (mkRepo (dirty r) (untracked r) (staged r) (commits r)
                           (origin r) (pushed r ++ [(url, branch)]))
      end
  | None => Raise no_origin
  end.

(** [Repo.clone_from]: the remote answers, then the work tree appears. *)
Definition clone (url path : string) (e : state) : Res unit * state :=
  match remote_errors e !! url with
  | Some msg => (Raise (GitCommandError msg), e)
  | None =>
      match locate e (Path path) with
      | Raise x => (Raise (GitCommandError (exn_str x)), e)
      | Ok loc =>
          let made :=
            match node_at (fs e) loc with
            | Some _ => (Ok tt, e)
            | None => create_entry e loc (Dir true)
            end in
          match made with
          | (Ok _, e1) =>
              (Ok tt, with_repos e1
                        (<[loc := mkRepo false [] false ["initial"] (Some url) []]>
                           (repos e1)))
          | (Raise x, e1) => (Raise (GitCommandError (exn_str x)), e1)
          end
      end
  end.

Definition default_uuid : string := "00000000-0000-4000-8000-000000000000".

Definition next_uuid (e : state) : string * state :=
  (hd default_uuid (uuids e),
   mkExt (fs e) (cwd e) (home e) (stdin e) (environ e) (dotenv e)
         (json_files e) (repos e) (remote_errors e) (tl (uuids e)) (clock e)).

Definition tick (e : state) : nat * state :=
  (clock e,
   mkExt (fs e) (cwd e) (home e) (stdin e) (environ e) (dotenv e)
         (json_files e) (repos e) (remote_errors e) (uuids e) (S (clock e))).

Definition sys : Sys state :=
  mkSys state
    exists_ is_dir is_file iterdir_any mkdir touch
    (fun e => Path (home e))
    read_input dotenv_load (fun k e => environ e !! k) load_json text_of
    (query_repo (fun _ => Ok tt))
    (query_repo (fun r => Ok (dirty r)))
    (query_repo (fun r => Ok (untracked r)))
    (update_repo add_all)
    (fun path msg => update_repo (commit msg) path)
    (query_repo (fun r => match origin r with
                          | Some _ => Ok tt
                          | None => Raise no_origin
                          end))
    (query_repo (fun r => match origin r with
                          | Some u => Ok u
                          | None => Raise no_origin
                          end))
    (fun path url => update_repo (set_url url) path)
    (fun path branch e => update_repo (push (remote_errors e) branch) path e)
    clone next_uuid tick
    (fun _ => false).

End Toy.

(** ** Example machines

    A machine with a home directory and a work tree [/repo] that has a
    directory [src]; the repository at [/repo] and the answers of the
    remote are given. *)
Module Example.

Import Toy.

Definition files : gmap (list string) node :=
  <[["repo"] := Dir true]>
    (<[["repo"; "src"] := Dir true]> (<[["home"] := Dir true]> ∅)).

Definition origin_url : string := "https://github.com/user/repo.git".

Definition clean_repo : repo :=
  mkRepo false [] false ["initial"] (Some origin_url) [].

Definition edited_repo : repo :=
  mkRepo true ["notes.txt"] false ["initial"] (Some origin_url) [].

Definition machine (r : repo) (errors environment : gmap string string)
    : state :=
  mkExt files [] "/home" [] environment ∅ ∅ (<[["repo"] := r]> ∅) errors
        ["op-1"; "op-2"] 100.

Definition start (e : state) : World state := mkWorld e [].

Definition server (e : state) : ServerState (Ext := state) :=
  mkServer ∅ (start e).

Definition config : ServerConfig := mkServerConfig "mcp-default-key" (Path "/app/mcp").

(** The configuration object that [MCPConfig()] builds on these machines. *)
Definition mcp_config : MCPConfig :=
  mkConfig (Path "/home/.mcp") (Path "/home/.mcp/config.json")
    (<["github_token" := EmptyString]>
       (<["default_branch" := "main"]> (<["log_level" := "INFO"]> ∅))).

(** The call that leaves the repository through the file name. *)
Definition escape_run : Res bool * World state :=
  add_file_to_section sys "/repo" "src" "../../escaped.txt" false false
    (start (machine clean_repo ∅ ∅)).

(** The direct call that adds [src/notes.txt]. *)
Definition direct_add : Res bool * World state :=
  add_file_to_section sys "repo" "src" "notes.txt" false false
    (start (machine clean_repo ∅ ∅)).

(** A job, once its operation has been created. *)
Definition job (ty : string) (run : string -> M (ServerState (Ext := state)) unit)
    (e : state) : Res unit * ServerState (Ext := state) :=
  (let* i := create_operation sys ty [] in run i) (server e).

(** The same request as a background job, with content. *)
Definition add_job : Res unit * ServerState (Ext := state) :=
  job "add-file"
    (fun i => execute_add_file_operation sys i "repo" "src" "notes.txt"
                (Some "hello"))
    (machine clean_repo ∅ ∅).

(** The job on a repository path that does not exist. *)
Definition add_job_nowhere : Res unit * ServerState (Ext := state) :=
  job "add-file"
    (fun i => execute_add_file_operation sys i "nowhere" "src" "notes.txt" None)
    (machine clean_repo ∅ ∅).

Definition missing_url : string := "https://github.com/user/missing".

(** A machine whose remote does not know [missing_url]. *)
Definition no_such_remote : state :=
  machine clean_repo (<[missing_url := "remote: Repository not found."]> ∅) ∅.

Definition clone_job : Res unit * ServerState (Ext := state) :=
  job "clone" (fun i => execute_clone_operation sys i missing_url "work")
    no_such_remote.

(** A machine with local changes whose remote rejects the push. *)
Definition rejecting_remote : state :=
  machine edited_repo (<[origin_url := "! [rejected] main -> main"]> ∅) ∅.

Definition push_job : Res unit * ServerState (Ext := state) :=
  job "push" (fun i => execute_push_operation sys i "/repo" "notes")
    rejecting_remote.

(** A machine with local changes and a token in the environment. *)
Definition with_token : state :=
  machine edited_repo ∅ (<["GITHUB_TOKEN" := "tok"]> ∅).

End Example.

(** ** The vocabulary of the specification *)

Definition chars (s : string) : list ascii := list_ascii_of_string s.

(** "contains none of the characters < > : double quote / \ | ? *" *)
Definition forbidden_free (c : string) : Prop :=
  forall ch, In ch (chars c) -> ~ In ch invalid_chars.

Definition same_ignoring_case (a b : string) : Prop := upper a = upper b.

(** "a Windows reserved device name (case-insensitive)" *)
Definition reserved_device_name (s : string) : Prop :=
  exists r, In r reserved_names /\ same_ignoring_case s r.

(** "empty or whitespace-only" *)
Definition whitespace_only (s : string) : Prop :=
  forall ch, In ch (chars s) -> is_space ch = true.

(** What the specification asks of one component of a path. *)
Definition component_ok (c : string) : Prop :=
  forbidden_free c
  /\ ~ reserved_device_name (before "." c)
  /\ String.length c <= 255
  /\ ~ whitespace_only c.

(** "ASCII letters, digits, dots, hyphens and underscores" *)
Definition allowed_char (c : ascii) : Prop :=
  (65 <= code c /\ code c <= 90) \/ (97 <= code c /\ code c <= 122)
  \/ (48 <= code c /\ code c <= 57)
  \/ c = "."%char \/ c = "-"%char \/ c = "_"%char.

Definition only_allowed (s : string) : Prop :=
  forall ch, In ch (chars s) -> allowed_char ch.

(** "after stripping a trailing .git" *)
Definition without_git_suffix (repo : string) : string :=
  if endswith ".git" repo then drop_last 4 repo else repo.

(** "its path has at least two segments": the first two are the user name
    and the repository name. *)
Definition first_two_segments (p : ParseResult) (username repo : string) : Prop :=
  exists rest,
    split "/" (strip_chars ["/"%char] (path p)) = username :: repo :: rest.

(** The condition of the specification on a URL, word for word.  The host
    is the network location of the parsed URL. *)
Definition url_as_specified (nr : string -> bool) (url : string) : Prop :=
  exists p username repo,
    urlparse nr url = Ok p
    /\ (netloc p = "github.com" \/ netloc p = "www.github.com")
    /\ first_two_segments p username repo
    /\ username <> EmptyString /\ repo <> EmptyString
    /\ only_allowed username
    /\ only_allowed (without_git_suffix repo).

(** The same condition, with the repository name required to stay
    non-empty once the suffix is stripped. *)
Definition url_as_amended (nr : string -> bool) (url : string) : Prop :=
  exists p username repo,
    urlparse nr url = Ok p
    /\ (netloc p = "github.com" \/ netloc p = "www.github.com")
    /\ first_two_segments p username repo
    /\ username <> EmptyString /\ repo <> EmptyString
    /\ only_allowed username
    /\ without_git_suffix repo <> EmptyString
    /\ only_allowed (without_git_suffix repo).

(** A character other than the line feed. *)
Definition not_lf (c : ascii) : bool := negb (Ascii.eqb c (chr 10)).

(** "whose working tree is not clean": dirty, or with untracked files. *)
Definition has_changes {Ext : Type} (sys : Sys Ext) (path : string) (e : Ext)
    : Prop :=
  is_dirty sys path e = Ok true
  \/ (is_dirty sys path e = Ok false
      /\ exists f fs, untracked_files sys path e = Ok (f :: fs)).

(** The remote URL with the token embedded, as [push_changes] builds it. *)
Definition auth_url (token url : string) : string :=
  replace "https://github.com/" ("https://" +:+ token +:+ "@github.com/") url.

(** What [push_changes] answers once [origin.push] has answered. *)
Definition after_push (r : Res unit) : Res bool :=
  match r with
  | Ok _ => Ok true
  | Raise x => if is_Exception x then Ok false else Raise x
  end.

(** A computation that only reads the world and writes to the log. *)
Definition reads_only {Ext A : Type} (m : M (World Ext) A) : Prop :=
  forall e, exists r l', forall l, m (mkWorld e l) = (r, mkWorld e (l ++ l')).

(** The identifiers of the operations in the store. *)
Definition keys {Ext : Type} (s : ServerState (Ext := Ext)) : gset string :=
  dom (active_operations s).

(** A computation of the server that removes no operation. *)
Definition keeps_keys {Ext A : Type} (m : M (ServerState (Ext := Ext)) A) : Prop :=
  forall s, keys s ⊆ keys (snd (m s)).

(** The field [k] of the operation [i]. *)
Definition operation_field {Ext : Type} (s : ServerState (Ext := Ext))
    (i k : string) : option PyVal :=
  active_operations s !! i ≫= (fun op => op !! k).

(** A name as the parser of paths keeps it: not empty, not [.], without
    the separator. *)
Definition wf_name (x : string) : Prop :=
  contains_char "/" x = false /\ kept_name x = true.

(** A path as the parser builds it. *)
Definition wf_path (p : PurePath) : Prop :=
  In (root p) [EmptyString; "/"; "//"] /\ List.Forall wf_name (names p).


(** The credentials that a call carries, for the routes that ask for them. *)
Definition credentials_of (c : ApiCall) : option string :=
  match c with
  | GetRoot | GetStatus | StreamTurn _ => None
  | PostClone _ k | PostPush _ k | PostAddFile _ k | GetOperation _ k
  | ListOperations k | StreamEvents k => Some k
  end.

(** The dictionary of an operation after [update_operation]; [t] is the
    time of completion, when the status is final. *)
Definition updated (op : gmap string PyVal) (status message : string)
    (result : option (list (string * PyVal))) (error : option string)
    (t : option nat) : gmap string PyVal :=
  let op :=
    <["status" := VStr status]>
      (<["message" := VStr message]>
       (<["result" := opt_dict result]>
        (<["error" := opt_str error]> op))) in
  match t with
  | Some t => <["completed_at" := VTime t]> op
  | None => op
  end.

(** The statuses that end an operation. *)
Definition is_final (status : string) : bool :=
  str_in ["completed"; "failed"] status.

(** ** More example machines *)
Module Cases.

Import Toy.

(** The example machine with a file [/repo/src/a.txt] and the answer [n]
    waiting on the standard input. *)
Definition busy : state :=
  mkExt (<[["repo"; "src"; "a.txt"] := File "old"]> Example.files) [] "/home"
        ["n"] ∅ ∅ ∅ (<[["repo"] := Example.clean_repo]> ∅) ∅ ["op-1"; "op-2"] 100.


(** A server with one operation, as [create_operation] stores it. *)
Definition one_operation : ServerState (Ext := state) :=
  mkServer (<["op-1" := new_operation "op-1" "clone" [] 100]> ∅)
           (Example.start (Example.machine Example.edited_repo ∅ ∅)).

End Cases.

(** * Properties *)

(** ** Strings *)

Lemma str_any_spec (p : ascii -> bool) (s : string) :
  str_any p s = true <-> exists ch, In ch (chars s) /\ p ch = true.
Proof.
  induction s as [|a s IH]; simpl.
  - split; [discriminate | intros (ch & [] & _)].
  - rewrite orb_true_iff, IH. split.
    + intros [Ha | (ch & Hin & Hp)]; [exists a | exists ch]; auto.
    + intros (ch & [<- | Hin] & Hp); [left | right; exists ch]; auto.
Qed.

Lemma str_all_spec (p : ascii -> bool) (s : string) :
  str_all p s = true <-> forall ch, In ch (chars s) -> p ch = true.
Proof.
  induction s as [|a s IH]; simpl.
  - split; [intros _ ch [] | reflexivity].
  - rewrite andb_true_iff, IH. split.
    + intros [Ha Hs] ch [<- | Hin]; auto.
    + intros Hall. split; [|intros ch Hin]; apply Hall; auto.
Qed.

Lemma char_in_spec (cs : list ascii) (c : ascii) :
  char_in cs c = true <-> In c cs.
Proof.
  unfold char_in. rewrite existsb_exists. split.
  - intros (x & Hin & Heq). apply Ascii.eqb_eq in Heq. now subst.
  - intros Hin. exists c. split; [assumption | apply Ascii.eqb_refl].
Qed.

Lemma str_in_spec (l : list string) (s : string) :
  str_in l s = true <-> In s l.
Proof.
  unfold str_in. rewrite existsb_exists. split.
  - intros (x & Hin & Heq). apply String.eqb_eq in Heq. now subst.
  - intros Hin. exists s. split; [assumption | apply String.eqb_refl].
Qed.

Lemma hd_split (sep : ascii) (s : string) :
  hd EmptyString (split sep s) = before sep s.
Proof.
  induction s as [|a s IH]; simpl; [reflexivity|].
  destruct (Ascii.eqb a sep); [reflexivity|].
  destruct (split sep s); simpl in *; now rewrite <- IH.
Qed.

Lemma rstrip_keeps_head (p : ascii -> bool) (c : ascii) (s : string) :
  p c = false -> nonempty (rstrip_by p (String c s)) = true.
Proof.
  intros Hc. simpl. destruct (rstrip_by p s); [rewrite Hc|]; reflexivity.
Qed.

Lemma strip_nonempty (p : ascii -> bool) (s : string) :
  nonempty (strip_by p s) = negb (str_all p s).
Proof.
  unfold strip_by. induction s as [|a s IH]; [reflexivity|].
  simpl lstrip_by. simpl str_all. destruct (p a) eqn:Ha.
  - exact IH.
  - now rewrite rstrip_keeps_head.
Qed.

Lemma reserved_names_upper (r : string) :
  In r reserved_names -> upper r = r.
Proof.
  intros Hin. unfold reserved_names in Hin. simpl in Hin.
  repeat (destruct Hin as [<- | Hin]; [reflexivity|]). destruct Hin.
Qed.

(** ** File names and paths *)

Lemma is_valid_filename_spec (c : string) :
  is_valid_filename c = true <-> component_ok c.
Proof.
  unfold is_valid_filename, component_ok.
  rewrite hd_split.
  assert (Hbad : str_any (char_in invalid_chars) c = false <-> forbidden_free c).
  { unfold forbidden_free. split.
    - intros Hf ch Hin Hbad.
      assert (str_any (char_in invalid_chars) c = true) as Ht
        by (apply str_any_spec; exists ch; split; [|apply char_in_spec]; auto).
      congruence.
    - intros Hfree. destruct (str_any _ c) eqn:E; [|reflexivity].
      apply str_any_spec in E as (ch & Hin & Hc).
      apply char_in_spec in Hc. now destruct (Hfree ch Hin). }
  assert (Hres : str_in reserved_names (upper (before "." c)) = false
                 <-> ~ reserved_device_name (before "." c)).
  { unfold reserved_device_name, same_ignoring_case. split.
    - intros Hf (r & Hin & Heq). rewrite (reserved_names_upper r Hin) in Heq.
      rewrite Heq in Hf.
      assert (str_in reserved_names r = true) by now apply str_in_spec.
      congruence.
    - intros Hno. destruct (str_in _ _) eqn:E; [|reflexivity].
      apply str_in_spec in E. destruct Hno.
      exists (upper (before "." c)). split; [assumption|].
      now rewrite (reserved_names_upper _ E). }
  assert (Hws : truthy (strip c) = true <-> ~ whitespace_only c).
  { unfold truthy, truthy_str, strip, whitespace_only.
    rewrite strip_nonempty, negb_true_iff. split.
    - intros Hf Hall. apply str_all_spec in Hall. congruence.
    - intros Hno. destruct (str_all is_space c) eqn:E; [|reflexivity].
      destruct Hno. now apply str_all_spec. }
  destruct (str_any (char_in invalid_chars) c) eqn:E1.
  { split; [discriminate|]. intros (Hfree & _).
    apply Hbad in Hfree. discriminate. }
  destruct (str_in reserved_names (upper (before "." c))) eqn:E2.
  { split; [discriminate|]. intros (_ & Hr & _).
    apply Hres in Hr. discriminate. }
  destruct (255 <? String.length c) eqn:E3.
  { split; [discriminate|]. intros (_ & _ & Hlen & _).
    apply Nat.ltb_lt in E3. lia. }
  destruct (truthy (strip c)) eqn:E4; simpl.
  - split; [|reflexivity]. intros _. apply Nat.ltb_ge in E3.
    repeat split; [now apply Hbad | now apply Hres | assumption | now apply Hws].
  - split; [discriminate|]. intros (_ & _ & _ & Hw).
    apply Hws in Hw. discriminate.
Qed.

(** C8.  [is_valid_path] answers [True] exactly when no component of the
    path (the parts of the parsed path) is [..] and every component
    contains none of the forbidden characters, has no reserved device name
    before its first dot (case-insensitive), is at most 255 characters
    long, and is not empty or whitespace-only. *)
Theorem is_valid_path_spec (path : string) :
  is_valid_path path = true
  <-> ~ In ".." (parts (Path path))
      /\ forall c, In c (parts (Path path)) -> component_ok c.
Proof.
  unfold is_valid_path.
  destruct (str_in (parts (Path path)) "..") eqn:E.
  - apply str_in_spec in E. split; [discriminate | intros [Hno _]; contradiction].
  - rewrite forallb_forall. split.
    + intros Hall. split.
      * intros Hin. apply str_in_spec in Hin. congruence.
      * intros c Hin. apply is_valid_filename_spec. now apply Hall.
    + intros [_ Hall] c Hin. apply is_valid_filename_spec. now apply Hall.
Qed.

(** ** Characters kept by the string operations

    Whatever holds of every character of a string holds of every character
    of the pieces cut out of it. *)
Section Pieces.

Variable P : ascii -> bool.

Lemma all_app (a b : string) :
  str_all P (a +:+ b) = str_all P a && str_all P b.
Proof.
  induction a as [|c a IH]; simpl; [reflexivity|].
  now rewrite IH, andb_assoc.
Qed.

Lemma all_lstrip (q : ascii -> bool) (s : string) :
  str_all P s = true -> str_all P (lstrip_by q s) = true.
Proof.
  induction s as [|c s IH]; simpl; [reflexivity|].
  intros H. destruct (q c); [|exact H].
  apply andb_true_iff in H. now apply IH.
Qed.

Lemma all_rstrip (q : ascii -> bool) (s : string) :
  str_all P s = true -> str_all P (rstrip_by q s) = true.
Proof.
  induction s as [|c s IH]; simpl; [reflexivity|].
  intros H. apply andb_true_iff in H as [Hc Hs]. specialize (IH Hs).
  destruct (rstrip_by q s) eqn:E.
  - destruct (q c); simpl; [reflexivity | now rewrite Hc].
  - simpl in *. now rewrite Hc, IH.
Qed.

Lemma all_strip (q : ascii -> bool) (s : string) :
  str_all P s = true -> str_all P (strip_by q s) = true.
Proof. intros H. unfold strip_by. now apply all_rstrip, all_lstrip. Qed.

Lemma all_before (c : ascii) (s : string) :
  str_all P s = true -> str_all P (before c s) = true.
Proof.
  induction s as [|a s IH]; simpl; [reflexivity|].
  intros H. apply andb_true_iff in H as [Ha Hs].
  destruct (Ascii.eqb a c); simpl; [reflexivity | now rewrite Ha, IH].
Qed.

Lemma all_after (c : ascii) (s : string) :
  str_all P s = true -> str_all P (after c s) = true.
Proof.
  induction s as [|a s IH]; simpl; [reflexivity|].
  intros H. apply andb_true_iff in H as [Ha Hs].
  destruct (Ascii.eqb a c); auto.
Qed.

Lemma all_take_until (q : ascii -> bool) (s : string) :
  str_all P s = true -> str_all P (take_until q s) = true.
Proof.
  induction s as [|a s IH]; simpl; [reflexivity|].
  intros H. apply andb_true_iff in H as [Ha Hs].
  destruct (q a); simpl; [reflexivity | now rewrite Ha, IH].
Qed.

Lemma all_drop_until (q : ascii -> bool) (s : string) :
  str_all P s = true -> str_all P (drop_until q s) = true.
Proof.
  induction s as [|a s IH]; simpl; [reflexivity|].
  intros H. destruct (q a); [exact H|].
  apply andb_true_iff in H as [Ha Hs]. auto.
Qed.

Lemma all_drop (n : nat) (s : string) :
  str_all P s = true -> str_all P (str_drop n s) = true.
Proof.
  revert s. induction n as [|n IH]; intros [|a s]; simpl; auto.
  intros H. apply andb_true_iff in H as [Ha Hs]. auto.
Qed.

Lemma all_take (n : nat) (s : string) :
  str_all P s = true -> str_all P (str_take n s) = true.
Proof.
  revert s. induction n as [|n IH]; intros [|a s]; simpl; auto.
  intros H. apply andb_true_iff in H as [Ha Hs]. now rewrite Ha, IH.
Qed.

Lemma all_rev_onto (s acc : string) :
  str_all P (str_rev_onto s acc) = str_all P s && str_all P acc.
Proof.
  revert acc. induction s as [|a s IH]; intros acc; simpl; [reflexivity|].
  rewrite IH. simpl. destruct (P a), (str_all P s), (str_all P acc); reflexivity.
Qed.

Lemma all_rev (s : string) : str_all P (str_rev s) = str_all P s.
Proof. unfold str_rev. rewrite all_rev_onto. simpl. apply andb_true_r. Qed.

Lemma all_split (sep : ascii) (s : string) :
  str_all P s = true ->
  List.Forall (fun x => str_all P x = true) (split sep s).
Proof.
  induction s as [|a s IH]; simpl.
  - intros _. now constructor.
  - intros H. apply andb_true_iff in H as [Ha Hs]. specialize (IH Hs).
    destruct (Ascii.eqb a sep).
    + now constructor.
    + destruct (split sep s) as [|h t].
      * constructor; [simpl; now rewrite Ha | constructor].
      * inversion IH as [|? ? Hh Ht]; subst.
        constructor; [simpl; now rewrite Ha, Hh | assumption].
Qed.

Lemma all_filter (q : ascii -> bool) (s : string) :
  (forall c, q c = true -> P c = true) ->
  str_all P (str_filter q s) = true.
Proof.
  intros Hq. induction s as [|a s IH]; simpl; [reflexivity|].
  destruct (q a) eqn:E; [simpl; now rewrite (Hq a E), IH | exact IH].
Qed.

End Pieces.

(** ** URLs *)

Lemma splitparams_no_lf (url : string) :
  str_all not_lf url = true ->
  str_all not_lf (fst (splitparams url)) = true.
Proof.
  intros H. unfold splitparams.
  destruct (contains_char "/" url); [|now apply all_before].
  destruct (contains_char ";" _); [|exact H]. simpl.
  rewrite !all_app, all_rev. simpl.
  rewrite all_after by now rewrite all_rev.
  rewrite all_before; [reflexivity|].
  rewrite all_rev. apply all_before. now rewrite all_rev.
Qed.

Lemma urlsplit_no_lf (nr : string -> bool) (url : string) (r : ParseResult) :
  urlsplit nr url = Ok r -> str_all not_lf (path r) = true.
Proof.
  unfold urlsplit.
  set (u := str_filter _ _).
  assert (Hu : str_all not_lf u = true).
  { apply all_filter. intros c Hc. unfold not_lf.
    destruct (Ascii.eqb c (chr 10)) eqn:E; [|reflexivity].
    apply Ascii.eqb_eq in E. subst c. discriminate Hc. }
  clearbody u.
  repeat match goal with
         | |- context [if ?b then _ else _] => destruct b
         end;
    try discriminate; intros [= <-]; cbn [path];
    repeat first [ exact Hu | apply all_before | apply all_after
                 | apply all_drop_until | apply (all_drop not_lf 2) ].
Qed.

Lemma urlparse_no_lf (nr : string -> bool) (url : string) (r : ParseResult) :
  urlparse nr url = Ok r -> str_all not_lf (path r) = true.
Proof.
  unfold urlparse. destruct (urlsplit nr url) as [r0|] eqn:E; [|discriminate].
  apply urlsplit_no_lf in E.
  destruct (str_in uses_params (scheme r0) && contains_char ";" (path r0)).
  - pose proof (splitparams_no_lf _ E) as Hs.
    destruct (splitparams (path r0)) as [p prm]. now intros [= <-].
  - now intros [= <-].
Qed.

Lemma valid_char_spec (c : ascii) : valid_char c = true <-> allowed_char c.
Proof.
  unfold valid_char, allowed_char, is_ascii_lower, is_ascii_upper, is_digit.
  rewrite !orb_true_iff, !andb_true_iff, !Nat.leb_le, char_in_spec. simpl.
  intuition (subst; auto).
Qed.

Lemma only_allowed_spec (s : string) :
  str_all valid_char s = true <-> only_allowed s.
Proof.
  unfold only_allowed. rewrite str_all_spec.
  split; intros H ch Hin; apply valid_char_spec; auto.
Qed.

Lemma endswith_lf (s : string) :
  str_all not_lf s = true -> endswith (str1 (chr 10)) s = false.
Proof.
  intros H. unfold endswith. rewrite <- all_rev in H.
  destruct (str_rev s) as [|b t]; [reflexivity|].
  simpl in H. apply andb_true_iff in H as [Hb _].
  unfold not_lf in Hb. apply negb_true_iff in Hb.
  cbn -[Ascii.eqb]. rewrite Ascii.eqb_sym, Hb. reflexivity.
Qed.

Lemma nonempty_spec (s : string) : nonempty s = true <-> s <> EmptyString.
Proof. destruct s; simpl; split; congruence. Qed.

Lemma valid_pattern_match_spec (s : string) :
  str_all not_lf s = true ->
  valid_pattern_match s = true <-> s <> EmptyString /\ only_allowed s.
Proof.
  intros H. unfold valid_pattern_match. rewrite (endswith_lf s H).
  now rewrite andb_true_iff, nonempty_spec, only_allowed_spec.
Qed.

Lemma without_git_suffix_no_lf (r : string) :
  str_all not_lf r = true -> str_all not_lf (without_git_suffix r) = true.
Proof.
  intros H. unfold without_git_suffix, drop_last.
  destruct (endswith ".git" r); [now apply all_take | exact H].
Qed.

Lemma is_valid_repo_url_amended (nr : string -> bool) (url : string) :
  is_valid_repo_url nr url = true <-> url_as_amended nr url.
Proof.
  unfold is_valid_repo_url, url_as_amended, first_two_segments.
  destruct (urlparse nr url) as [p|e] eqn:E.
  2: { split; [discriminate | intros (p & ? & ? & H & _); discriminate]. }
  pose proof (urlparse_no_lf _ _ _ E) as Hp.
  assert (Hnet : str_in ["github.com"; "www.github.com"] (netloc p) = true
                 <-> netloc p = "github.com" \/ netloc p = "www.github.com").
  { rewrite str_in_spec. simpl. intuition. }
  pose proof (all_split not_lf "/" _ (all_strip not_lf (char_in ["/"%char]) _ Hp))
    as Hall.
  fold (strip_chars ["/"%char] (path p)) in Hall.
  destruct (str_in _ (netloc p)) eqn:En; simpl.
  2: { split; [discriminate|].
       intros (p' & u & r & [= <-] & Hn & _). apply Hnet in Hn. discriminate Hn. }
  destruct (split "/" (strip_chars ["/"%char] (path p))) as [|u [|r rest]] eqn:Es;
    simpl.
  1,2: split; [discriminate|];
       intros (p' & u' & r' & [= <-] & _ & (rest' & Hs) & _);
       rewrite Es in Hs; discriminate Hs.
  inversion Hall as [|? ? Hu Hall']; subst.
  inversion Hall' as [|? ? Hr _]; subst.
  fold (without_git_suffix r).
  pose proof (valid_pattern_match_spec u Hu) as Vu.
  pose proof (valid_pattern_match_spec _ (without_git_suffix_no_lf r Hr)) as Vr.
  unfold truthy, truthy_str.
  pose proof (nonempty_spec u) as Nu. pose proof (nonempty_spec r) as Nr.
  split.
  - intros H. exists p, u, r.
    destruct (nonempty u); [|discriminate].
    destruct (nonempty r); [|discriminate]. simpl in H.
    destruct (valid_pattern_match u); [|discriminate].
    destruct (valid_pattern_match (without_git_suffix r)); [|discriminate].
    destruct Vu as [Vu _], Vr as [Vr _].
    destruct (Vu eq_refl), (Vr eq_refl).
    split; [reflexivity|]. split; [now apply Hnet|].
    split; [now exists rest|]. split; [now apply Nu|].
    split; [now apply Nr|]. tauto.
  - intros (p' & u' & r' & [= <-] & _ & (rest' & Hs) & Hu1 & Hr1 & Hu2 & Hr2 & Hr3).
    rewrite Es in Hs. injection Hs as <- <- <-.
    rewrite (proj2 Nu Hu1), (proj2 Nr Hr1). simpl.
    rewrite (proj2 Vu (conj Hu1 Hu2)), (proj2 Vr (conj Hr2 Hr3)). reflexivity.
Qed.

(** ** Git operations *)


Section GitProofs.

Context {Ext : Type} (sys : Sys Ext).

Local Opaque startswith replace String.append.
Lemma reads_ret {A : Type} (a : A) : reads_only (Ext := Ext) (ret a).
Proof. intros e. exists (Ok a), []. intros l. unfold ret. now rewrite app_nil_r. Qed.

Lemma reads_ask {A : Type} (q : Ext -> Res A) : reads_only (ask q).
Proof.
  intros e. exists (q e), []. intros l. unfold ask. simpl. now rewrite app_nil_r.
Qed.

Lemma reads_logger (lv : level) (msg : string) :
  reads_only (Ext := Ext) (logger lv msg).
Proof. intros e. exists (Ok tt), [(lv, msg)]. reflexivity. Qed.

Lemma reads_bind {A B : Type} (m : M (World Ext) A) (k : A -> M (World Ext) B) :
  reads_only m -> (forall a, reads_only (k a)) -> reads_only (bind m k).
Proof.
  intros Hm Hk e. destruct (Hm e) as (r & l1 & Hr). destruct r as [a|x].
  - destruct (Hk a e) as (r2 & l2 & Hr2). exists r2, (l1 ++ l2). intros l.
    unfold bind. now rewrite Hr, Hr2, app_assoc.
  - exists (Raise x), l1. intros l. unfold bind. now rewrite Hr.
Qed.

Lemma reads_try {A : Type} (body : M (World Ext) A)
    (handler : exn -> option (M (World Ext) A)) :
  reads_only body ->
  (forall x, match handler x with Some h => reads_only h | None => True end) ->
  reads_only (try_except body handler).
Proof.
  intros Hb Hh e. destruct (Hb e) as (r & l1 & Hr). destruct r as [a|x].
  - exists (Ok a), l1. intros l. unfold try_except. now rewrite Hr.
  - specialize (Hh x). destruct (handler x) as [h|] eqn:E.
    + destruct (Hh e) as (r2 & l2 & Hr2). exists r2, (l1 ++ l2). intros l.
      unfold try_except. now rewrite Hr, E, Hr2, app_assoc.
    + exists (Raise x), l1. intros l. unfold try_except. now rewrite Hr, E.
Qed.

Ltac reads :=
  repeat first
    [ apply reads_ret | apply reads_ask | apply reads_logger
    | apply reads_bind; [|intros ?]
    | apply reads_try; [|intros ?]
    | match goal with
      | |- reads_only (if ?b then _ else _) => destruct b
      | |- reads_only (match ?x with _ => _ end) => destruct x
      | |- match (if ?b then _ else _) with _ => _ end => destruct b
      | |- True => exact I
      end ].

Lemma load_config_reads (self : MCPConfig) : reads_only (load_config sys self).
Proof. unfold load_config. reads. Qed.

Lemma get_default_branch_reads (self : MCPConfig) :
  reads_only (get_default_branch sys self).
Proof. unfold get_default_branch. pose proof (load_config_reads self). reads. Qed.

Lemma get_github_token_reads (self : MCPConfig) :
  reads_only (get_github_token sys self).
Proof. unfold get_github_token. pose proof (load_config_reads self). reads. Qed.

(** The answer of a reading computation does not depend on the log. *)
Lemma reads_only_run {A : Type} (m : M (World Ext) A) (e : Ext)
    (l : list (level * string)) :
  reads_only m ->
  exists l', m (mkWorld e l) = (fst (m (mkWorld e [])), mkWorld e (l ++ l')).
Proof.
  intros Hm. destruct (Hm e) as (r & l' & Hr). exists l'.
  now rewrite (Hr l), (Hr []).
Qed.

(** C9.  On a valid Git repository whose working tree is clean (not dirty,
    no untracked file) [push_changes] answers [True] and leaves the world
    as it was: nothing is staged, committed or pushed; one line is
    logged. *)
Theorem push_changes_clean {T : Type} `{Truthy T}
    (self : MCPConfig) (local_path commit_message : string) (dry_run : T)
    (w : World Ext) :
  Repo sys local_path (ext w) = Ok tt ->
  is_dirty sys local_path (ext w) = Ok false ->
  untracked_files sys local_path (ext w) = Ok [] ->
  push_changes sys self local_path commit_message dry_run w
  = (Ok true, mkWorld (ext w) (log w ++ [(INFO, "No changes to commit")])).
Proof.
  intros HR HD HU.
  unfold push_changes, push_changes_body, is_git_repository, try_except, bind,
    ask, ret, logger.
  rewrite HR. simpl. rewrite HR. simpl. rewrite HD. simpl. rewrite HU. simpl.
  reflexivity.
Qed.

Lemma git_error_handler_total (second second_msg other_msg failed_msg : string)
    (e : exn) (w : World Ext) :
  is_Exception e = true ->
  exists h msg,
    git_error_handler (Ext := Ext) second second_msg other_msg failed_msg e = Some h
    /\ h w = (Ok false, mkWorld (ext w) (log w ++ [(ERROR, msg)])).
Proof.
  intros He. unfold git_error_handler.
  destruct e; try discriminate He; simpl;
    try (eexists _, _; split; [reflexivity|]; unfold bind, logger, ret; simpl;
         reflexivity).
  destruct (contains "Authentication failed" msg || contains "access denied" (lower msg));
    [|destruct (contains second (lower msg))];
    eexists _, _; (split; [reflexivity|]); unfold bind, logger, ret; simpl;
    reflexivity.
Qed.

Lemma git_error_handler_passes (second second_msg other_msg failed_msg : string)
    (e : exn) :
  is_Exception e = false ->
  git_error_handler (Ext := Ext) second second_msg other_msg failed_msg e = None.
Proof. destruct e; simpl; try discriminate; reflexivity. Qed.

Lemma get_github_token_nonempty (self : MCPConfig) (w : World Ext)
    (token : string) :
  fst (get_github_token sys self w) = Ok (Some token) -> nonempty token = true.
Proof.
  unfold get_github_token, bind.
  destruct (load_config sys self w) as [[config|x] w1]; [|discriminate].
  destruct (config !! "github_token") as [t|] eqn:E;
    unfold truthy, truthy_opt_str; simpl.
  - destruct (nonempty t) eqn:Et; simpl.
    + unfold ret. simpl. intros Heq.
      assert (t = token) by congruence. now subst.
    + unfold bind, logger. simpl. discriminate.
  - unfold bind, logger. simpl. discriminate.
Qed.




End GitProofs.

(** ** The server *)

Section ServerProofs.
Context {Ext : Type} (sys : Sys Ext) (server_config : ServerConfig).

Abbreviation St := (ServerState (Ext := Ext)).

Lemma keeps_ret {A : Type} (a : A) : keeps_keys (Ext := Ext) (ret a).
Proof. intros s. reflexivity. Qed.

Lemma keeps_raise {A : Type} (e : exn) :
  keeps_keys (Ext := Ext) (raise (A := A) e).
Proof. intros s. reflexivity. Qed.

Lemma keeps_of_res {A : Type} (r : Res A) :
  keeps_keys (Ext := Ext) (of_res r).
Proof. intros s. reflexivity. Qed.

Lemma keeps_lift {A : Type} (m : M (World Ext) A) : keeps_keys (lift m).
Proof. intros s. unfold lift, keys. destruct (m (world s)). reflexivity. Qed.

Lemma keeps_get : keeps_keys (Ext := Ext) get_operations.
Proof. intros s. reflexivity. Qed.

Lemma keeps_set (operation_id : string) (op : gmap string PyVal) :
  keeps_keys (Ext := Ext) (set_operation operation_id op).
Proof.
  intros s. unfold set_operation, keys. simpl. rewrite dom_insert_L. set_solver.
Qed.

Lemma keeps_bind {A B : Type} (m : M St A) (k : A -> M St B) :
  keeps_keys m -> (forall a, keeps_keys (k a)) -> keeps_keys (bind m k).
Proof.
  intros Hm Hk s. unfold bind. specialize (Hm s).
  destruct (m s) as [[a|e] s1]; simpl in *; [|exact Hm].
  etransitivity; [exact Hm | apply Hk].
Qed.

Lemma keeps_try {A : Type} (body : M St A) (handler : exn -> option (M St A)) :
  keeps_keys body ->
  (forall x, match handler x with Some h => keeps_keys h | None => True end) ->
  keeps_keys (try_except body handler).
Proof.
  intros Hb Hh s. unfold try_except. specialize (Hb s).
  destruct (body s) as [[a|e] s1]; simpl in *; [exact Hb|].
  specialize (Hh e). destruct (handler e) as [h|]; [|exact Hb].
  etransitivity; [exact Hb | apply Hh].
Qed.

Ltac keeps :=
  repeat first
    [ apply keeps_ret | apply keeps_raise | apply keeps_of_res
    | apply keeps_lift | apply keeps_get | apply keeps_set
    | solve [auto]
    | apply keeps_bind; [|intros ?]
    | apply keeps_try; [|intros ?]
    | match goal with
      | |- keeps_keys (if ?b then _ else _) => destruct b
      | |- keeps_keys (match ?x with _ => _ end) => destruct x
      | |- match (if ?b then _ else _) with _ => _ end => destruct b
      | |- True => exact I
      end ].

Lemma keeps_now : keeps_keys (now sys).
Proof. unfold now. keeps. Qed.

Lemma keeps_create (operation_type : string) (params : list (string * PyVal)) :
  keeps_keys (create_operation sys operation_type params).
Proof. unfold create_operation. pose proof keeps_now. keeps. Qed.

Lemma keeps_update (operation_id status message : string)
    (result : option (list (string * PyVal))) (error : option string) :
  keeps_keys (update_operation sys operation_id status message result error).
Proof. unfold update_operation. pose proof keeps_now. keeps. Qed.

Lemma keeps_run_task (t : Task) : keeps_keys (run_task sys t).
Proof.
  pose proof keeps_update.
  destruct t; simpl;
    unfold execute_clone_operation, execute_push_operation,
      execute_add_file_operation; keeps.
Qed.

Lemma keeps_run_tasks (ts : list Task) : keeps_keys (run_tasks sys ts).
Proof.
  induction ts as [|t ts IH]; simpl; [apply keeps_ret|].
  pose proof (keeps_run_task t). keeps.
Qed.

Lemma keeps_send_updates (current_time : nat)
    (items : list (string * gmap string PyVal)) (sent : list Event) :
  keeps_keys (Ext := Ext) (send_updates current_time items sent).
Proof.
  revert sent. induction items as [|[i op] items IH]; intros sent; simpl.
  - apply keeps_ret.
  - destruct (operation_update current_time i op) as [[ev|]|x]; keeps;
      apply IH.
Qed.

Lemma keeps_verify (credentials : string) :
  keeps_keys (Ext := Ext) (verify_api_key server_config credentials).
Proof. unfold verify_api_key. keeps. Qed.

Lemma keeps_operation_at (operation_id : string) :
  keeps_keys (Ext := Ext) (operation_at operation_id).
Proof. unfold operation_at. keeps. Qed.

Lemma keeps_serve (c : ApiCall) : keeps_keys (serve sys server_config c).
Proof.
  pose proof keeps_create. pose proof keeps_verify. pose proof keeps_operation_at.
  pose proof keeps_run_tasks. pose proof keeps_now. pose proof keeps_send_updates.
  destruct c; simpl;
    unfold respond_then_run, clone_repository_route, push_changes_route,
      add_file_route, get_operation, list_operations, stream_events,
      event_generator_pass, root_route, get_status; keeps.
Qed.

Lemma new_operation_pending (i ty : string) (params : list (string * PyVal))
    (t : nat) :
  new_operation i ty params t !! "status" = Some (VStr "pending")
  /\ new_operation i ty params t !! "id" = Some (VStr i)
  /\ new_operation i ty params t !! "operation_id" = None.
Proof. repeat split; reflexivity. Qed.

Lemma create_operation_run (ty : string) (params : list (string * PyVal))
    (s : St) :
  exists t w,
    let i := fst (uuid4 sys (ext (world s))) in
    create_operation sys ty params s
    = (Ok i, mkServer (<[i := new_operation i ty params t]> (active_operations s)) w).
Proof.
  unfold create_operation, now, bind, lift, act, set_operation, ret. simpl.
  destruct (uuid4 sys (ext (world s))) as [i e1]. simpl.
  destruct (datetime_now sys e1) as [t e2]. simpl.
  eexists _, _. reflexivity.
Qed.

Lemma update_operation_run (i status message : string)
    (result : option (list (string * PyVal))) (error : option string) (s : St) :
  match active_operations s !! i with
  | None => update_operation sys i status message result error s = (Ok tt, s)
  | Some op =>
      exists op' w,
        update_operation sys i status message result error s
        = (Ok tt, mkServer (<[i := op']> (active_operations s)) w)
        /\ op' !! "status" = Some (VStr status)
        /\ op' !! "message" = Some (VStr message)
        /\ forall k, k <> "status" -> k <> "message" -> k <> "result" ->
                     k <> "error" -> k <> "completed_at" -> op' !! k = op !! k
  end.
Proof.
  unfold update_operation, bind, get_operations.
  destruct (active_operations s !! i) as [op|] eqn:E; [|reflexivity].
  destruct (str_in ["completed"; "failed"] status);
    unfold set_operation, now, lift, act, bind, ret; simpl.
  - destruct (datetime_now sys (ext (world s))) as [t e1]. simpl.
    eexists _, _. split; [rewrite insert_insert_eq; reflexivity|].
    split; [now simplify_map_eq|]. split; [now simplify_map_eq|].
    intros k ? ? ? ? ?. now simplify_map_eq.
  - eexists _, _. split; [reflexivity|].
    split; [now simplify_map_eq|]. split; [now simplify_map_eq|].
    intros k ? ? ? ? ?. now simplify_map_eq.
Qed.

(** C4.  The store is a map keyed by generated identifiers from which
    nothing is removed: [create_operation] inserts one entry under the
    identifier that [uuid4] gives, with status [pending] (one more entry
    when the identifier is fresh); [update_operation] changes the fields of
    an entry that exists and nothing else; every key present before a call
    of the server is present after it. *)
Theorem operation_store_only_grows :
  (forall ty params (s : St),
      exists i t s',
        create_operation sys ty params s = (Ok i, s')
        /\ i = fst (uuid4 sys (ext (world s)))
        /\ active_operations s'
           = <[i := new_operation i ty params t]> (active_operations s)
        /\ new_operation i ty params t !! "status" = Some (VStr "pending")
        /\ (active_operations s !! i = None ->
            size (active_operations s') = S (size (active_operations s))))
  /\ (forall i status message result error (s : St),
        let s' := snd (update_operation sys i status message result error s) in
        keys s' = keys s
        /\ (forall k, k <> i -> active_operations s' !! k = active_operations s !! k)
        /\ (active_operations s !! i = None -> s' = s))
  /\ (forall c (s : St), keys s ⊆ keys (snd (serve sys server_config c s))).
Proof.
  split; [|split].
  - intros ty params s.
    destruct (create_operation_run ty params s) as (t & w & Hrun). simpl in Hrun.
    eexists _, t, _. split; [exact Hrun|]. split; [reflexivity|].
    split; [reflexivity|]. split; [apply new_operation_pending|].
    intros Hfresh. simpl. now apply map_size_insert_None.
  - intros i status message result error s s'. subst s'.
    pose proof (update_operation_run i status message result error s) as Hrun.
    destruct (active_operations s !! i) as [op|] eqn:E.
    + destruct Hrun as (op' & w & Hrun & _). rewrite Hrun. unfold keys. simpl.
      split; [|split].
      * rewrite dom_insert_L. apply elem_of_dom_2 in E.
        apply set_eq. intros k. rewrite elem_of_union, elem_of_singleton.
        split; [intros [->|]; assumption | auto].
      * intros k Hk. now rewrite lookup_insert_ne.
      * discriminate.
    + rewrite Hrun. auto.
  - intros c s. apply keeps_serve.
Qed.

Lemma response_needs_operation_id (i ty : string)
    (params : list (string * PyVal)) (t : nat) :
  OperationResponse_init (new_operation i ty params t)
  = Raise (ValidationError "operation_id").
Proof.
  unfold OperationResponse_init, required_str.
  now rewrite (proj2 (proj2 (new_operation_pending i ty params t))).
Qed.

Lemma response_error_is_validation (kw : gmap string PyVal) (e : exn) :
  OperationResponse_init kw = Raise e -> exists k, e = ValidationError k.
Proof.
  unfold OperationResponse_init, res_bind, required_str, required_time,
    optional_time, optional_dict, optional_str.
  repeat match goal with
         | |- context [kw !! ?k] => destruct (kw !! k) as [[]|]
         end;
    intros Heq; inversion Heq; eauto.
Qed.

Lemma registered_then_refused {A : Type} (ty : string)
    (params : list (string * PyVal)) (tasks : string -> A) (s : St) :
  exists i t w,
    (let* operation_id := create_operation sys ty params in
     let* operation := operation_at operation_id in
     let* response := of_res (OperationResponse_init operation) in
     ret (response, tasks operation_id)) s
    = (Raise (ValidationError "operation_id"),
       mkServer (<[i := new_operation i ty params t]> (active_operations s)) w).
Proof.
  destruct (create_operation_run ty params s) as (t & w & Hrun). simpl in Hrun.
  eexists _, t, w. unfold bind at 1. rewrite Hrun.
  unfold operation_at, get_operations, of_res, bind, ret.
  cbn [active_operations]. rewrite lookup_insert_eq.
  now rewrite response_needs_operation_id.
Qed.

(** C5, on the code.  The three POST routes register the operation as
    [pending] and then raise a validation error instead of returning an
    [OperationResponse]: the dictionary of the operation has the key [id],
    and the model requires [operation_id].  [GET /api/operations/{id}]
    answers 404 exactly for the identifiers that are not in the store. *)
Theorem post_routes_raise_validation_error :
  (forall request (s : St),
      exists i t w,
        clone_repository_route sys server_config request (api_key server_config) s
        = (Raise (ValidationError "operation_id"),
           mkServer (<[i := new_operation i "clone"
                              [("repo_url", VStr (clone_repo_url request));
                               ("local_path", VStr (clone_local_path request))] t]>
                       (active_operations s)) w))
  /\ (forall request (s : St),
        exists s',
          push_changes_route sys server_config request (api_key server_config) s
          = (Raise (ValidationError "operation_id"), s'))
  /\ (forall request (s : St),
        exists s',
          add_file_route sys server_config request (api_key server_config) s
          = (Raise (ValidationError "operation_id"), s'))
  /\ (forall i (s : St),
        fst (get_operation server_config i (api_key server_config) s)
        = Raise (HTTPException 404 "Operation not found")
        <-> active_operations s !! i = None).
Proof.
  split; [|split; [|split]].
  - intros request s.
    unfold clone_repository_route, verify_api_key. rewrite String.eqb_refl.
    simpl negb. cbv iota. unfold bind at 1. unfold ret at 1.
    apply registered_then_refused with
      (tasks := fun i => [CloneTask i (clone_repo_url request)
                                      (clone_local_path request)]).
  - intros request s.
    unfold push_changes_route, verify_api_key. rewrite String.eqb_refl.
    simpl negb. cbv iota. unfold bind at 1. unfold ret at 1.
    destruct (registered_then_refused "push"
                [("repo_path", VStr (push_repo_path request));
                 ("commit_message", VStr (push_commit_message request))]
                (fun i => [PushTask i (push_repo_path request)
                                      (push_commit_message request)]) s)
      as (i & t & w & Hrun).
    eexists. exact Hrun.
  - intros request s.
    unfold add_file_route, verify_api_key. rewrite String.eqb_refl.
    simpl negb. cbv iota. unfold bind at 1. unfold ret at 1.
    destruct (registered_then_refused "add-file"
                [("repo_path", VStr (add_repo_path request));
                 ("section", VStr (add_section request));
                 ("filename", VStr (add_filename request));
                 ("content", opt_str (add_content request))]
                (fun i => [AddFileTask i (add_repo_path request)
                             (add_section request) (add_filename request)
                             (add_content request)]) s)
      as (i & t & w & Hrun).
    eexists. exact Hrun.
  - intros i s.
    unfold get_operation, verify_api_key. rewrite String.eqb_refl.
    unfold bind, ret, get_operations, operation_at, raise, of_res. simpl.
    destruct (active_operations s !! i) as [op|] eqn:E; simpl.
    + unfold bind, get_operations, ret. simpl. rewrite E. simpl.
      split; [|discriminate]. intros Heq.
      apply response_error_is_validation in Heq as [k Hk]. discriminate Hk.
    + split; reflexivity.
Qed.

End ServerProofs.

(** ** The claims on URLs *)

(** C7, as amended.  [is_valid_repo_url] answers [True] exactly when the
    network location is [github.com] or [www.github.com], the path has at
    least two segments with a non-empty user name and repository name, the
    repository name is still non-empty once a trailing [.git] is stripped,
    and the user name and the stripped repository name consist only of
    ASCII letters, digits, dots, hyphens and underscores.  When the
    validation fails, [clone_repository] answers [False], logs the error,
    and touches nothing. *)
Theorem is_valid_repo_url_spec {Ext : Type} (sys : Sys Ext) :
  (forall url,
      is_valid_repo_url (netloc_rejected sys) url = true
      <-> url_as_amended (netloc_rejected sys) url)
  /\ (forall (T : Type) (H : Truthy T) url local_path (dry_run : T) w,
        is_valid_repo_url (netloc_rejected sys) url = false ->
        clone_repository sys url local_path dry_run w
        = (Ok false,
           mkWorld (ext w)
                   (log w ++ [(ERROR, "Invalid repository URL: " +:+ url)]))).
Proof.
  split.
  - intros url. apply is_valid_repo_url_amended.
  - intros T H url local_path dry_run w Hbad.
    unfold clone_repository, clone_repository_body, try_except.
    rewrite Hbad. reflexivity.
Qed.

Lemma is_valid_repo_url_spec_witness :
  clone_repository Toy.sys "not_a_url" "work" false
    (Example.start Example.no_such_remote)
  = (Ok false,
     mkWorld Example.no_such_remote
             [(ERROR, "Invalid repository URL: not_a_url")]).
Proof.
  apply (proj2 (is_valid_repo_url_spec Toy.sys) bool _ "not_a_url" "work" false
               (Example.start Example.no_such_remote)).
  vm_compute. reflexivity.
Defined.

(** C7, as stated, fails on a repository name that is exactly [.git]: the
    name is not empty, nothing is left of it once the suffix is stripped,
    and nothing is a string of allowed characters only; the code answers
    [False]. *)
Lemma is_valid_repo_url_counterexample :
  ~ (is_valid_repo_url (netloc_rejected Toy.sys) "https://github.com/user/.git"
     = true
     <-> url_as_specified (netloc_rejected Toy.sys)
           "https://github.com/user/.git").
Proof.
  intros [_ Hspec].
  assert (Hcode : is_valid_repo_url (netloc_rejected Toy.sys)
                    "https://github.com/user/.git" = false) by reflexivity.
  rewrite Hspec in Hcode; [discriminate Hcode|].
  exists (mkParse "https" "github.com" "/user/.git" EmptyString EmptyString
                  EmptyString), "user", ".git".
  split; [reflexivity|]. split; [now left|].
  split; [exists []; reflexivity|].
  split; [discriminate|]. split; [discriminate|].
  split.
  - intros ch Hin. apply valid_char_spec. simpl in Hin.
    repeat (destruct Hin as [<- | Hin]; [reflexivity|]). destruct Hin.
  - intros ch Hin. destruct Hin.
Qed.

(** ** Files *)

(** The part of C1 that holds for every file system: a section that fails
    [is_valid_path] is answered with [False] (or with what is not an
    [Exception], when the file system raises that), and nothing is
    created. *)
Lemma add_file_to_section_bad_section {Ext : Type} (sys : Sys Ext)
    {T : Type} `{Truthy T} (repo_path section filename : string)
    (dry_run : T) (overwrite : bool) (w : World Ext) :
  is_valid_path section = false ->
  (fst (add_file_to_section sys repo_path section filename dry_run overwrite w)
   = Ok false
   \/ exists e,
       fst (add_file_to_section sys repo_path section filename dry_run
              overwrite w) = Raise e
       /\ is_Exception e = false)
  /\ ext (snd (add_file_to_section sys repo_path section filename dry_run
                 overwrite w)) = ext w.
Proof.
  intros Hbad.
  unfold add_file_to_section, try_except, bind, ask, logger, ret.
  rewrite Hbad. simpl.
  destruct (path_exists sys (Path repo_path) (ext w)) as [[|]|e]; simpl.
  - destruct (path_is_dir sys (Path repo_path) (ext w)) as [[|]|e]; simpl;
      auto.
    destruct (is_Exception e) eqn:He; simpl; eauto.
  - auto.
  - destruct (is_Exception e) eqn:He; simpl; eauto.
Qed.

(** The configuration object of the example machines is the one that
    [MCPConfig()] builds there. *)
Lemma example_config_is_built :
  fst (MCPConfig_init Toy.sys (Example.start Example.with_token))
  = Ok Example.mcp_config.
Proof. vm_compute. reflexivity. Qed.

(** ** The claims on concrete machines *)

(** C1, on the code.  [add_file_to_section] checks the last component of
    the joined path, not the file name it was given: with the file name
    [../../escaped.txt], which [is_valid_filename] refuses, the call on
    [/repo] and [src] answers [True] and creates [/escaped.txt], outside
    the repository; nothing is created inside it. *)
Theorem add_file_to_section_escapes :
  is_valid_filename "../../escaped.txt" = false
  /\ fst Example.escape_run = Ok true
  /\ Toy.fs (ext (snd Example.escape_run)) !! ["escaped.txt"]
     = Some (Toy.File EmptyString)
  /\ Toy.fs (Example.machine Example.clean_repo ∅ ∅) !! ["escaped.txt"] = None
  /\ Toy.fs (ext (snd Example.escape_run)) !! ["repo"; "src"; "escaped.txt"]
     = None.
Proof. repeat split; vm_compute; reflexivity. Qed.

(** C2, on the code.  The direct call creates [repo/src/notes.txt].  The
    background job for the same request, with the content [hello], passes
    the content where [dry_run] is expected: it creates no file and reports
    [completed].  On a repository path that does not exist the operation
    fails ([path] is [False] in the result) and the job reports
    [completed] all the same. *)
Theorem add_file_job_is_not_the_direct_call :
  fst Example.direct_add = Ok true
  /\ Toy.fs (ext (snd Example.direct_add)) !! ["repo"; "src"; "notes.txt"]
     = Some (Toy.File EmptyString)
  /\ operation_field (snd Example.add_job) "op-1" "status"
     = Some (VStr "completed")
  /\ Toy.fs (ext (world (snd Example.add_job))) !! ["repo"; "src"; "notes.txt"]
     = None
  /\ operation_field (snd Example.add_job_nowhere) "op-1" "status"
     = Some (VStr "completed")
  /\ operation_field (snd Example.add_job_nowhere) "op-1" "result"
     = Some (VDict [("path", VBool false); ("section", VStr "src");
                    ("filename", VStr "notes.txt")]).
Proof. repeat split; vm_compute; reflexivity. Qed.

(** C3, on the code.  The clone of a repository that the remote does not
    know fails ([clone_repository] answers [False]) and the push that the
    remote rejects fails ([push_changes] answers [False]); both jobs report
    [completed], with a result and no error. *)
Theorem jobs_report_completed_on_failure :
  fst (clone_repository Toy.sys Example.missing_url "work" false
         (Example.start Example.no_such_remote)) = Ok false
  /\ operation_field (snd Example.clone_job) "op-1" "status"
     = Some (VStr "completed")
  /\ operation_field (snd Example.clone_job) "op-1" "result"
     = Some (VDict [("path", VStr "work")])
  /\ operation_field (snd Example.clone_job) "op-1" "error" = Some VNone
  /\ fst (push_changes Toy.sys Example.mcp_config "/repo" "notes" false
            (Example.start Example.rejecting_remote)) = Ok false
  /\ operation_field (snd Example.push_job) "op-1" "status"
     = Some (VStr "completed")
  /\ operation_field (snd Example.push_job) "op-1" "error" = Some VNone.
Proof. repeat split; vm_compute; reflexivity. Qed.

(** ** The theorems at work on the example machines *)

Lemma push_changes_clean_witness :
  push_changes Toy.sys Example.mcp_config "/repo" "notes" false
    (Example.start (Example.machine Example.clean_repo ∅ ∅))
  = (Ok true,
     mkWorld (Example.machine Example.clean_repo ∅ ∅)
             [(INFO, "No changes to commit")]).
Proof.
  apply (push_changes_clean Toy.sys Example.mcp_config "/repo" "notes" false
           (Example.start (Example.machine Example.clean_repo ∅ ∅)));
    vm_compute; reflexivity.
Defined.



Lemma operation_store_only_grows_witness :
  size (active_operations
          (snd (create_operation Toy.sys "clone" []
                  (Example.server Example.no_such_remote)))) = 1.
Proof.
  destruct (proj1 (operation_store_only_grows Toy.sys Example.config)
                  "clone" [] (Example.server Example.no_such_remote))
    as (i & t & s' & Hrun & Hi & Hstore & Hpending & Hsize).
  rewrite Hrun. simpl. rewrite Hsize; [reflexivity | apply lookup_empty].
Defined.

(** * Further properties *)

(** ** Paths *)

Lemma split_no_sep (sep : ascii) (x : string) :
  contains_char sep x = false -> split sep x = [x].
Proof.
  unfold contains_char. induction x as [|a x IH]; simpl; [reflexivity|].
  intros H. apply orb_false_iff in H as [Ha Hx].
  rewrite Ascii.eqb_sym, Ha, (IH Hx). reflexivity.
Qed.

Lemma split_app_sep (sep : ascii) (x rest : string) :
  contains_char sep x = false ->
  split sep (x +:+ String sep rest) = x :: split sep rest.
Proof.
  unfold contains_char. induction x as [|a x IH]; simpl.
  - intros _. now rewrite Ascii.eqb_refl.
  - intros H. apply orb_false_iff in H as [Ha Hx].
    rewrite Ascii.eqb_sym, Ha, (IH Hx). reflexivity.
Qed.

Lemma split_pieces (sep : ascii) (s : string) :
  List.Forall (fun x => contains_char sep x = false) (split sep s).
Proof.
  unfold contains_char. induction s as [|a s IH]; simpl.
  - now constructor.
  - destruct (Ascii.eqb a sep) eqn:E.
    + now constructor.
    + destruct (split sep s) as [|h t].
      * constructor; [simpl; now rewrite Ascii.eqb_sym, E | constructor].
      * inversion IH as [|? ? Hh Ht]; subst.
        constructor; [simpl; now rewrite Ascii.eqb_sym, E, Hh | assumption].
Qed.

Lemma split_join (l : list string) :
  List.Forall (fun x => contains_char "/" x = false) l -> l <> [] ->
  split "/" (join "/" l) = l.
Proof.
  induction l as [|x l IH]; [congruence|]. intros Hall _.
  inversion Hall as [|? ? Hx Hl]; subst.
  destruct l as [|y l].
  - simpl. now apply split_no_sep.
  - change (join "/" (x :: y :: l)) with (x +:+ String "/" (join "/" (y :: l))).
    rewrite split_app_sep by assumption. f_equal. now apply IH.
Qed.

Lemma filter_kept (l : list string) :
  List.Forall wf_name l -> List.filter kept_name l = l.
Proof.
  induction 1 as [|x l [_ Hx] _ IH]; simpl; [reflexivity|].
  now rewrite Hx, IH.
Qed.

Lemma Path_wf (s : string) : wf_path (Path s).
Proof.
  unfold Path, splitroot, wf_path.
  assert (Hn : forall rel, List.Forall wf_name (List.filter kept_name (split "/" rel))).
  { intros rel. pose proof (split_pieces "/" rel) as Hp.
    induction Hp as [|x l Hx _ IH]; simpl; [constructor|].
    destruct (kept_name x) eqn:E; [constructor; [split|]; assumption | assumption]. }
  destruct (negb (startswith "/" s)); [|destruct (_ || _)]; simpl;
    (split; [tauto | apply Hn]).
Qed.

Lemma joinpath_wf (p : PurePath) (s : string) :
  wf_path p -> wf_path (joinpath p s).
Proof.
  intros [Hr Hn]. pose proof (Path_wf s) as [Hr' Hn'].
  unfold joinpath. destruct (nonempty (root (Path s))).
  - now split.
  - split; [exact Hr | simpl; apply Forall_app; now split].
Qed.

Lemma wf_name_head (x : string) :
  wf_name x -> startswith "/" x = false /\ x <> EmptyString.
Proof.
  intros [Hs Hk]. destruct x as [|a x]; [discriminate Hk|].
  split; [|discriminate]. unfold contains_char in Hs. simpl in *.
  apply orb_false_iff in Hs as [Ha _]. now rewrite Ha.
Qed.

Lemma join_head (l : list string) :
  List.Forall wf_name l -> startswith "/" (join "/" l) = false.
Proof.
  intros Hall. destruct l as [|x l]; [reflexivity|].
  inversion Hall as [|? ? Hx _]; subst.
  destruct (wf_name_head x Hx) as [Hs Hne].
  destruct x as [|a x]; [contradiction|].
  destruct l; simpl in *; assumption.
Qed.

Lemma parse_joined (l : list string) :
  List.Forall wf_name l ->
  List.filter kept_name (split "/" (join "/" l)) = l.
Proof.
  intros Hall. destruct l as [|x l]; [reflexivity|].
  rewrite split_join; [now apply filter_kept | | discriminate].
  eapply Forall_impl; [exact Hall | intros y [Hy _]; exact Hy].
Qed.

Lemma Path_str_roundtrip (p : PurePath) :
  wf_path p -> Path (path_str p) = p.
Proof.
  destruct p as [r l]. intros [Hr Hn]. simpl in Hr, Hn.
  pose proof (join_head l Hn) as Hh. pose proof (parse_joined l Hn) as Hp.
  unfold path_str, Path, splitroot. simpl root. simpl names.
  destruct Hr as [<- | [<- | [<- | []]]].
  - destruct l as [|x l]; [reflexivity|].
    change (EmptyString +:+ join "/" (x :: l)) with (join "/" (x :: l)).
    rewrite Hh. simpl negb. cbv iota. now rewrite Hp.
  - change ("/" +:+ join "/" l) with (String "/" (join "/" l)).
    change (startswith "/" (String "/" (join "/" l))) with true.
    change (str_drop 1 (String "/" (join "/" l))) with (join "/" l).
    rewrite Hh. simpl negb. simpl orb. cbv iota. now rewrite Hp.
  - change ("//" +:+ join "/" l) with (String "/" (String "/" (join "/" l))).
    change (startswith "/" (String "/" (String "/" (join "/" l)))) with true.
    change (str_drop 1 (String "/" (String "/" (join "/" l))))
      with (String "/" (join "/" l)).
    change (str_drop 2 (String "/" (String "/" (join "/" l)))) with (join "/" l).
    change (startswith "/" (String "/" (join "/" l))) with true.
    rewrite Hh. simpl negb. simpl orb. cbv iota. now rewrite Hp.
Qed.

Lemma valid_filename_no_sep (f : string) :
  is_valid_filename f = true -> contains_char "/" f = false /\ nonempty f = true.
Proof.
  unfold is_valid_filename. intros H.
  destruct (str_any (char_in invalid_chars) f) eqn:E1; [discriminate|].
  destruct (str_in reserved_names _); [discriminate|].
  destruct (255 <? String.length f); [discriminate|].
  destruct (truthy (strip f)) eqn:E4; [|discriminate].
  split.
  - destruct (contains_char "/" f) eqn:E; [|reflexivity].
    apply str_any_spec in E as (ch & Hin & Hch). apply Ascii.eqb_eq in Hch.
    subst ch.
    assert (str_any (char_in invalid_chars) f = true) as Ht
      by (apply str_any_spec; exists "/"%char; split; [assumption | reflexivity]).
    congruence.
  - destruct f; [discriminate E4 | reflexivity].
Qed.

Lemma Path_single (f : string) :
  is_valid_filename f = true -> f <> "." -> Path f = mkPath EmptyString [f].
Proof.
  intros Hv Hdot. destruct (valid_filename_no_sep f Hv) as [Hs Hne].
  unfold Path, splitroot.
  assert (Hh : startswith "/" f = false).
  { destruct f as [|a f]; [reflexivity|]. unfold contains_char in Hs. simpl in *.
    apply orb_false_iff in Hs as [Ha _]. now rewrite Ha. }
  rewrite Hh. simpl negb. cbv iota. rewrite split_no_sep by assumption.
  simpl. unfold kept_name. rewrite Hne.
  destruct (String.eqb f ".") eqn:E; [apply String.eqb_eq in E; contradiction|].
  reflexivity.
Qed.

Lemma rooted_path_invalid (s : string) :
  nonempty (root (Path s)) = true -> is_valid_path s = false.
Proof.
  intros Hr. unfold is_valid_path, parts. rewrite Hr.
  destruct (str_in _ ".."); [reflexivity|].
  destruct (Path_wf s) as [Hroot _].
  destruct Hroot as [E | [E | [E | []]]]; rewrite <- E in *;
    [discriminate Hr | reflexivity | reflexivity].
Qed.

Lemma leading_slash_rooted (s : string) :
  startswith "/" s = true -> nonempty (root (Path s)) = true.
Proof.
  intros H. unfold Path, splitroot. rewrite H. simpl negb. cbv iota.
  destruct (_ || _); reflexivity.
Qed.

(** [is_valid_path] refuses every path that begins with a slash: the root
    is a part of the path, and it contains the separator. *)
Theorem is_valid_path_rejects_absolute (path : string) :
  startswith "/" path = true -> is_valid_path path = false.
Proof. intros H. now apply rooted_path_invalid, leading_slash_rooted. Qed.

Lemma valid_path_relative (s : string) :
  is_valid_path s = true ->
  root (Path s) = EmptyString /\ ~ In ".." (names (Path s)).
Proof.
  intros Hv.
  destruct (nonempty (root (Path s))) eqn:E.
  - rewrite rooted_path_invalid in Hv by assumption. discriminate.
  - split; [now destruct (root (Path s))|].
    apply is_valid_path_spec in Hv as [Hno _].
    unfold parts in Hno. now rewrite E in Hno.
Qed.

Lemma joined_path_shape (repo_path section filename : string) :
  is_valid_path section = true ->
  is_valid_filename filename = true ->
  filename <> "." ->
  let file_path := joinpath (joinpath (Path repo_path) section) filename in
  root file_path = root (Path repo_path)
  /\ names file_path
     = names (Path repo_path) ++ names (Path section) ++ [filename]
  /\ ~ In ".." (names (Path section))
  /\ name file_path = filename
  /\ Path (path_str file_path) = file_path.
Proof.
  intros Hs Hf Hdot file_path.
  destruct (valid_path_relative section Hs) as [Hroot Hno].
  pose proof (Path_single filename Hf Hdot) as Hp.
  assert (Hshape : file_path
                   = mkPath (root (Path repo_path))
                       (names (Path repo_path) ++ names (Path section) ++ [filename])).
  { unfold file_path, joinpath. rewrite Hroot, Hp. simpl.
    now rewrite <- app_assoc. }
  split; [now rewrite Hshape|]. split; [now rewrite Hshape|].
  split; [exact Hno|]. split.
  - rewrite Hshape. unfold name. simpl. now rewrite app_assoc, last_last.
  - apply Path_str_roundtrip. unfold file_path.
    apply joinpath_wf, joinpath_wf, Path_wf.
Qed.

(** A section that passes [is_valid_path] and a file name that passes
    [is_valid_filename] (other than [.]) are joined below the repository:
    the path keeps the root of the repository path, its names are those of
    the repository, then those of the section, none of which is [..], then
    the file name; and [str] and [Path] take it back to itself, as
    [create_file] needs. *)
Theorem section_file_path_shape (repo_path section filename : string) :
  is_valid_path section = true ->
  is_valid_filename filename = true ->
  filename <> "." ->
  let file_path := joinpath (joinpath (Path repo_path) section) filename in
  root file_path = root (Path repo_path)
  /\ names file_path
     = names (Path repo_path) ++ names (Path section) ++ [filename]
  /\ ~ In ".." (names (Path section))
  /\ name file_path = filename
  /\ Path (path_str file_path) = file_path.
Proof. apply joined_path_shape. Qed.

(** ** Answers to a question *)

Lemma lower_is_y (r : string) :
  String.eqb (lower r) "y" = true <-> r = "y" \/ r = "Y".
Proof.
  split.
  - intros H. apply String.eqb_eq in H.
    destruct r as [|c [|c' r]]; try discriminate H.
    injection H as H.
    destruct c as [[] [] [] [] [] [] [] []]; try discriminate H; auto.
  - intros [-> | ->]; reflexivity.
Qed.

(** ** File operations, configuration, Git operations, server *)

Section FileProofs.

Context {Ext : Type} (sys : Sys Ext).

Local Opaque path_str Path joinpath is_valid_filename is_valid_path String.append.

Lemma create_directory_dry {T : Type} `{Truthy T} (p : PurePath) (dry_run : T)
    (w : World Ext) :
  truthy dry_run = true ->
  ext (snd (create_directory sys p dry_run w)) = ext w
  /\ (path_exists sys p (ext w) = Ok false ->
      fst (create_directory sys p dry_run w) = Ok true).
Proof.
  intros Hd. unfold create_directory, try_except, bind, ask, act, logger, ret.
  rewrite Hd.
  destruct (path_exists sys p (ext w)) as [[|]|x]; simpl.
  - destruct (path_is_dir sys p (ext w)) as [[|]|x]; simpl;
      try (split; [reflexivity | discriminate]).
    destruct x; simpl; split; try reflexivity; discriminate.
  - split; reflexivity.
  - destruct x; simpl; split; try reflexivity; discriminate.
Qed.

(** In a dry run [create_directory] changes nothing outside, and answers
    [True] for a path that does not exist. *)
Theorem create_directory_dry_run {T : Type} `{Truthy T} (p : PurePath)
    (dry_run : T) (w : World Ext) :
  truthy dry_run = true ->
  ext (snd (create_directory sys p dry_run w)) = ext w
  /\ (path_exists sys p (ext w) = Ok false ->
      fst (create_directory sys p dry_run w) = Ok true).
Proof. apply create_directory_dry. Qed.

(** In a dry run [create_file] creates nothing: it leaves the outside as
    it is, or as the one question asked through [input] leaves it; with
    [overwrite] set it asks nothing. *)
Theorem create_file_dry_run {T : Type} `{Truthy T} (file_path : string)
    (dry_run : T) (overwrite : bool) (w : World Ext) :
  truthy dry_run = true ->
  (overwrite = true ->
   ext (snd (create_file sys file_path dry_run overwrite w)) = ext w)
  /\ (ext (snd (create_file sys file_path dry_run overwrite w)) = ext w
      \/ exists prompt,
          ext (snd (create_file sys file_path dry_run overwrite w))
          = snd (input sys prompt (ext w))).
Proof.
  intros Hd.
  unfold create_file, try_except, bind, ask, act, logger, ret. rewrite Hd.
  destruct (is_valid_filename (name (Path file_path))); simpl.
  2: { split; [reflexivity | now left]. }
  destruct (path_exists sys (Path file_path) (ext w)) as [[|]|x]; simpl.
  - destruct overwrite; simpl.
    + split; [reflexivity | now left].
    + split; [discriminate|]. right.
      exists ("File " +:+ file_path +:+ " already exists. Overwrite? (y/N): ").
      destruct (input sys _ (ext w)) as [[r|x] e1]; simpl.
      * destruct (String.eqb (lower r) "y"); reflexivity.
      * destruct x; reflexivity.
  - pose proof (proj1 (create_directory_dry (parent (Path file_path)) dry_run w Hd))
      as Hdir.
    destruct (create_directory sys (parent (Path file_path)) dry_run w)
      as [[[|]|x] w1]; simpl in *.
    1,2: split; [intros _; assumption | now left].
    destruct x; simpl; (split; [intros _; assumption | now left]).
  - destruct x; simpl; (split; [reflexivity | now left]).
Qed.

(** An existing file is kept unless the answer to the question is [y] or
    [Y]: any other answer ends [create_file] with [False], nothing else
    having been done. *)
Theorem create_file_keeps_existing {T : Type} `{Truthy T} (file_path : string)
    (dry_run : T) (e e1 : Ext) (l : list (level * string)) (response : string) :
  is_valid_filename (name (Path file_path)) = true ->
  path_exists sys (Path file_path) e = Ok true ->
  input sys ("File " +:+ file_path +:+ " already exists. Overwrite? (y/N): ") e
  = (Ok response, e1) ->
  response <> "y" -> response <> "Y" ->
  create_file sys file_path dry_run false (mkWorld e l)
  = (Ok false, mkWorld e1 (l ++ [(INFO, "File creation cancelled.")])).
Proof.
  intros Hv He Hi Hy HY.
  unfold create_file, try_except, bind, ask, act, logger, ret.
  rewrite Hv. simpl. rewrite He. simpl. rewrite Hi. simpl.
  destruct (String.eqb (lower response) "y") eqn:E.
  - apply lower_is_y in E as [-> | ->]; contradiction.
  - reflexivity.
Qed.

(** [add_file_to_section] answers [False], with one error line and
    nothing changed, when the repository path does not exist, is not a
    directory, or the section fails [is_valid_path]. *)
Theorem add_file_to_section_refuses {T : Type} `{Truthy T}
    (repo_path section filename : string) (dry_run : T) (overwrite : bool)
    (w : World Ext) :
  path_exists sys (Path repo_path) (ext w) = Ok false
  \/ (path_exists sys (Path repo_path) (ext w) = Ok true
      /\ path_is_dir sys (Path repo_path) (ext w) = Ok false)
  \/ (path_exists sys (Path repo_path) (ext w) = Ok true
      /\ path_is_dir sys (Path repo_path) (ext w) = Ok true
      /\ is_valid_path section = false) ->
  exists msg,
    add_file_to_section sys repo_path section filename dry_run overwrite w
    = (Ok false, mkWorld (ext w) (log w ++ [(ERROR, msg)])).
Proof.
  unfold add_file_to_section, try_except, bind, ask, logger, ret.
  intros [He | [[He Hd] | (He & Hd & Hs)]]; rewrite He; simpl;
    try (rewrite Hd; simpl); try (rewrite Hs; simpl); eauto.
Qed.

(** For an existing repository, a valid section and a valid file name
    (other than [.]) that does not exist yet, [add_file_to_section] makes
    the directory of the section and touches exactly the path whose names
    are those of the repository, of the section and the file name. *)
Theorem add_file_to_section_touches
    (repo_path section filename : string) (overwrite : bool)
    (e e1 e2 : Ext) (l l1 : list (level * string)) :
  let file_path :=
    mkPath (root (Path repo_path))
           (names (Path repo_path) ++ names (Path section) ++ [filename]) in
  path_exists sys (Path repo_path) e = Ok true ->
  path_is_dir sys (Path repo_path) e = Ok true ->
  is_valid_path section = true ->
  is_valid_filename filename = true ->
  filename <> "." ->
  path_exists sys file_path e = Ok false ->
  create_directory sys (joinpath (Path repo_path) section) false (mkWorld e l)
  = (Ok true, mkWorld e1 l1) ->
  path_touch sys file_path e1 = (Ok tt, e2) ->
  add_file_to_section sys repo_path section filename false overwrite (mkWorld e l)
  = (Ok true,
     mkWorld e2 (l1 ++ [(INFO, "Created file: " +:+ path_str file_path)])).
Proof.
  intros file_path He Hd Hs Hf Hdot Hfe Hdir Ht.
  destruct (joined_path_shape repo_path section filename Hs Hf Hdot)
    as (Hroot & Hnames & _ & Hname & Hround).
  assert (Hfp : joinpath (joinpath (Path repo_path) section) filename = file_path).
  { destruct (joinpath (joinpath (Path repo_path) section) filename) as [r n].
    simpl in Hroot, Hnames. unfold file_path. now rewrite Hroot, Hnames. }
  rewrite Hfp in Hround, Hname.
  assert (Hparent : parent file_path = joinpath (Path repo_path) section).
  { destruct (valid_path_relative section Hs) as [Hr _].
    Local Transparent joinpath.
    unfold parent, file_path, joinpath. rewrite Hr. simpl.
    now rewrite app_assoc, removelast_last.
    Local Opaque joinpath. }
  unfold add_file_to_section, try_except at 1. unfold bind at 1.
  unfold ask at 1. simpl. rewrite He. simpl.
  unfold bind at 1. unfold ask at 1. simpl. rewrite Hd. simpl. rewrite Hs. simpl.
  rewrite Hfp.
  unfold create_file, try_except, bind, ask, act, logger, ret.
  rewrite Hround, Hname, Hf. cbn -[create_directory]. rewrite Hfe.
  cbn -[create_directory]. rewrite Hparent, Hdir.
  cbn -[create_directory]. rewrite Ht. reflexivity.
Qed.

End FileProofs.

Section GitExtras.

Context {Ext : Type} (sys : Sys Ext).

Local Opaque startswith replace String.append path_str Path is_valid_repo_url.

Lemma is_git_repository_run (path : string) (w : World Ext) :
  is_git_repository sys path w
  = (match Repo sys path (ext w) with
     | Ok _ => Ok true
     | Raise x => if is_Exception x then Ok false else Raise x
     end, w).
Proof.
  unfold is_git_repository, try_except, bind, ask, ret.
  destruct (Repo sys path (ext w)) as [[]|x]; [reflexivity|].
  destruct x; reflexivity.
Qed.

(** [is_git_repository] changes nothing, answers [True] exactly when
    [Repo(path)] opens, and answers [False] for every [Exception] that
    [Repo] raises. *)
Theorem is_git_repository_spec (path : string) (w : World Ext) :
  snd (is_git_repository sys path w) = w
  /\ (fst (is_git_repository sys path w) = Ok true
      <-> Repo sys path (ext w) = Ok tt)
  /\ (forall x, Repo sys path (ext w) = Raise x -> is_Exception x = true ->
                fst (is_git_repository sys path w) = Ok false).
Proof.
  rewrite is_git_repository_run. simpl. split; [reflexivity|]. split.
  - destruct (Repo sys path (ext w)) as [[]|x]; [tauto|].
    destruct (is_Exception x); split; discriminate.
  - intros x -> ->. reflexivity.
Qed.

(** A dry run of [clone_repository] on a valid URL and a path that does
    not exist answers [True] and neither makes a directory nor clones. *)
Theorem clone_repository_dry_run {T : Type} `{Truthy T}
    (repo_url local_path : string) (dry_run : T) (w : World Ext) :
  is_valid_repo_url (netloc_rejected sys) repo_url = true ->
  path_exists sys (Path local_path) (ext w) = Ok false ->
  truthy dry_run = true ->
  clone_repository sys repo_url local_path dry_run w
  = (Ok true,
     mkWorld (ext w)
       (log w ++ [(INFO, "[DRY RUN] Would clone " +:+ repo_url +:+ " to "
                         +:+ local_path)])).
Proof.
  intros Hu He Hd.
  unfold clone_repository, clone_repository_body, try_except, bind, ask, logger,
    ret.
  rewrite Hu. simpl. rewrite He. simpl. rewrite Hd. reflexivity.
Qed.

(** [clone_repository] does not clone onto an existing file: it answers
    [False] and changes nothing. *)
Theorem clone_repository_refuses_file {T : Type} `{Truthy T}
    (repo_url local_path : string) (dry_run : T) (w : World Ext) :
  is_valid_repo_url (netloc_rejected sys) repo_url = true ->
  path_exists sys (Path local_path) (ext w) = Ok true ->
  path_is_dir sys (Path local_path) (ext w) = Ok false ->
  path_is_file sys (Path local_path) (ext w) = Ok true ->
  clone_repository sys repo_url local_path dry_run w
  = (Ok false,
     mkWorld (ext w)
       (log w ++ [(ERROR, "Path " +:+ local_path
                          +:+ " exists and is a file, not a directory")])).
Proof.
  intros Hu He Hd Hf.
  unfold clone_repository, clone_repository_body, try_except, bind, ask, logger,
    ret.
  rewrite Hu. simpl. rewrite He. simpl. rewrite Hd. simpl. rewrite Hf. reflexivity.
Qed.

(** On a directory that is not empty [clone_repository] warns and asks;
    any answer other than [y] or [Y] ends it with [False] and no clone. *)
Theorem clone_repository_declined {T : Type} `{Truthy T}
    (repo_url local_path response : string) (dry_run : T) (e e1 : Ext)
    (l : list (level * string)) :
  is_valid_repo_url (netloc_rejected sys) repo_url = true ->
  path_exists sys (Path local_path) e = Ok true ->
  path_is_dir sys (Path local_path) e = Ok true ->
  path_iterdir_any sys (Path local_path) e = Ok true ->
  (forall x, Repo sys local_path e = Raise x -> is_Exception x = true) ->
  input sys ("Directory " +:+ local_path
             +:+ " already exists. Continue anyway? (y/N): ") e
  = (Ok response, e1) ->
  response <> "y" -> response <> "Y" ->
  exists warning,
    clone_repository sys repo_url local_path dry_run (mkWorld e l)
    = (Ok false,
       mkWorld e1 (l ++ [(WARNING, warning);
                         (INFO, "Clone operation cancelled.")])).
Proof.
  intros Hu He Hd Hany HR Hi Hy HY.
  assert (Hno : String.eqb (lower response) "y" = false).
  { destruct (String.eqb (lower response) "y") eqn:E; [|reflexivity].
    apply lower_is_y in E as [-> | ->]; contradiction. }
  unfold clone_repository, clone_repository_body, is_git_repository, try_except,
    bind, ask, act, logger, ret.
  rewrite Hu. simpl. rewrite He. simpl. rewrite Hd. simpl. rewrite Hany. simpl.
  destruct (Repo sys local_path e) as [[]|x] eqn:ER; simpl.
  - rewrite Hi. simpl. rewrite Hno. simpl. rewrite <- app_assoc. eauto.
  - pose proof (HR x eq_refl) as Hx.
    destruct x; try discriminate Hx; simpl; rewrite Hi; simpl; rewrite Hno; simpl;
      rewrite <- app_assoc; eauto.
Qed.

(** On a valid URL and a path that does not exist [clone_repository]
    makes the parent directories, then clones, and answers [True]. *)
Theorem clone_repository_clones
    (repo_url local_path : string) (e e1 e2 : Ext) (l : list (level * string)) :
  is_valid_repo_url (netloc_rejected sys) repo_url = true ->
  path_exists sys (Path local_path) e = Ok false ->
  path_mkdir sys (parent (Path local_path)) true true e = (Ok tt, e1) ->
  clone_from sys repo_url local_path e1 = (Ok tt, e2) ->
  clone_repository sys repo_url local_path false (mkWorld e l)
  = (Ok true,
     mkWorld e2
       (l ++ [(INFO, "Cloning repository " +:+ repo_url +:+ " to "
                     +:+ local_path +:+ "...");
              (INFO, "Successfully cloned repository to " +:+ local_path)])).
Proof.
  intros Hu He Hm Hc.
  unfold clone_repository, clone_repository_body, try_except, bind, ask, act,
    logger, ret.
  rewrite Hu. simpl. rewrite He. simpl. rewrite Hm. simpl. rewrite Hc. simpl.
  now rewrite <- app_assoc.
Qed.

(** [push_changes] on a path that [Repo] refuses answers [False], with
    one error line and nothing changed. *)
Theorem push_changes_not_a_repository {T : Type} `{Truthy T}
    (self : MCPConfig) (local_path commit_message : string) (dry_run : T)
    (w : World Ext) (x : exn) :
  Repo sys local_path (ext w) = Raise x ->
  is_Exception x = true ->
  push_changes sys self local_path commit_message dry_run w
  = (Ok false,
     mkWorld (ext w)
       (log w ++ [(ERROR, "Path " +:+ local_path
                          +:+ " is not a valid Git repository")])).
Proof.
  intros HR Hx.
  unfold push_changes, push_changes_body, try_except at 1.
  unfold bind at 1. rewrite is_git_repository_run, HR, Hx. reflexivity.
Qed.

(** A dry run of [push_changes] on a repository with changes answers
    [True] and stages, commits and pushes nothing. *)
Theorem push_changes_dry_run {T : Type} `{Truthy T}
    (self : MCPConfig) (local_path commit_message : string) (dry_run : T)
    (w : World Ext) :
  Repo sys local_path (ext w) = Ok tt ->
  has_changes sys local_path (ext w) ->
  truthy dry_run = true ->
  fst (push_changes sys self local_path commit_message dry_run w) = Ok true
  /\ ext (snd (push_changes sys self local_path commit_message dry_run w))
     = ext w.
Proof.
  intros HR HC Hd.
  unfold push_changes, push_changes_body, is_git_repository, try_except, bind,
    ask, act, ret, logger.
  rewrite HR. simpl. rewrite HR. simpl.
  destruct HC as [Hdirty | (Hdirty & f & fs & Hu)]; rewrite Hdirty; simpl;
    [|rewrite Hu; simpl]; rewrite Hd; split; reflexivity.
Qed.

(** Without a token, or with a remote URL that does not begin with
    [https://github.com/], [push_changes] pushes with the URL as it is:
    the push follows the commit directly.  When the push fails the call
    answers [False] and the commit stays. *)
Theorem push_changes_keeps_url
    (self : MCPConfig) (local_path commit_message : string)
    (l : list (level * string)) (e0 e1 e2 : Ext) (branch : string) :
  Repo sys local_path e0 = Ok tt ->
  has_changes sys local_path e0 ->
  git_add_all sys local_path e0 = (Ok tt, e1) ->
  index_commit sys local_path commit_message e1 = (Ok tt, e2) ->
  fst (get_default_branch sys self (mkWorld e2 [])) = Ok branch ->
  remote_origin sys local_path e2 = Ok tt ->
  fst (get_github_token sys self (mkWorld e2 [])) = Ok None
  \/ (exists token url,
        fst (get_github_token sys self (mkWorld e2 [])) = Ok (Some token)
        /\ remote_url sys local_path e2 = Ok url
        /\ startswith "https://github.com/" url = false) ->
  fst (push_changes sys self local_path commit_message false (mkWorld e0 l))
  = after_push (fst (remote_push sys local_path branch e2))
  /\ ext (snd (push_changes sys self local_path commit_message false
                 (mkWorld e0 l)))
     = snd (remote_push sys local_path branch e2).
Proof.
  intros HR HC HA HI HB HO HT.
  destruct (get_default_branch_reads sys self e2) as (rB & lB & HrB).
  rewrite (HrB []) in HB. simpl in HB. subst rB.
  destruct (get_github_token_reads sys self e2) as (rT & lT & HrT).
  assert (Hbody : exists l',
    push_changes_body sys self local_path commit_message false (mkWorld e0 l)
    = (match fst (remote_push sys local_path branch e2) with
       | Ok _ => Ok true
       | Raise x => Raise x
       end,
       mkWorld (snd (remote_push sys local_path branch e2)) l')).
  { unfold push_changes_body, is_git_repository, try_except, bind, ask, act,
      ret, logger. simpl. rewrite HR. simpl. rewrite HR. simpl.
    destruct HC as [Hd | (Hd & f & fs & Hu)]; rewrite Hd; simpl;
      [|rewrite Hu; simpl].
    all: rewrite HA; simpl; rewrite HI; simpl.
    all: rewrite HrB; simpl; rewrite HO; simpl; rewrite HrT; simpl.
    all: destruct HT as [HT | (token & url & HT & HU & HS)];
      rewrite (HrT []) in HT; simpl in HT; subst rT; simpl.
    all: try (assert (Htok : nonempty token = true)
                by (apply (get_github_token_nonempty sys self (mkWorld e2 []));
                    now rewrite (HrT []));
              unfold truthy, truthy_opt_str; rewrite Htok; simpl;
              rewrite HU; simpl; rewrite HS; simpl).
    all: destruct (remote_push sys local_path branch e2) as [[[]|x] e4]; simpl.
    all: eexists; reflexivity. }
  destruct Hbody as (l' & Hbody).
  unfold push_changes, try_except. rewrite Hbody.
  destruct (remote_push sys local_path branch e2) as [[[]|x] e4]; simpl.
  - split; reflexivity.
  - destruct (is_Exception x) eqn:Hx.
    + destruct (git_error_handler_total "rejected"
                  "Push rejected. You may need to pull changes first."
                  "Git error during push: " "Failed to push changes: "
                  x (mkWorld e4 l') Hx) as (h & msg & Hh & Hw).
      rewrite Hh, Hw. split; reflexivity.
    + rewrite git_error_handler_passes by assumption. split; reflexivity.
Qed.

End GitExtras.

Section ConfigExtras.

Context {Ext : Type} (sys : Sys Ext).

Local Opaque String.append path_str Path joinpath.




End ConfigExtras.

Section ServerExtras.

Context {Ext : Type} (sys : Sys Ext) (server_config : ServerConfig).

Abbreviation St' := (ServerState (Ext := Ext)).

Local Opaque String.append is_valid_filename is_valid_path is_valid_repo_url.

Lemma update_operation_state (i status message : string)
    (result : option (list (string * PyVal))) (error : option string)
    (s : St') (op : gmap string PyVal) :
  active_operations s !! i = Some op ->
  update_operation sys i status message result error s
  = (Ok tt,
     if is_final status
     then mkServer
            (<[i := updated op status message result error
                      (Some (fst (datetime_now sys (ext (world s)))))]>
               (active_operations s))
            (mkWorld (snd (datetime_now sys (ext (world s)))) (log (world s)))
     else mkServer
            (<[i := updated op status message result error None]>
               (active_operations s))
            (world s)).
Proof.
  intros E. unfold update_operation, bind, get_operations, is_final.
  rewrite E.
  destruct (str_in ["completed"; "failed"] status);
    unfold set_operation, now, lift, act, bind, ret, updated; simpl.
  - destruct (datetime_now sys (ext (world s))) as [t e1]. simpl.
    now rewrite insert_insert_eq.
  - reflexivity.
Qed.

(** [update_operation] on an operation of the store writes the status and
    the message, overwrites the result and the error (with [None] when they
    are not given), stamps [completed_at] exactly for the statuses
    [completed] and [failed], and leaves every other field. *)
Theorem update_operation_fields (i status message : string)
    (result : option (list (string * PyVal))) (error : option string)
    (s : St') (op : gmap string PyVal) :
  active_operations s !! i = Some op ->
  exists op',
    active_operations (snd (update_operation sys i status message result error s))
      !! i = Some op'
    /\ op' !! "status" = Some (VStr status)
    /\ op' !! "message" = Some (VStr message)
    /\ op' !! "result" = Some (opt_dict result)
    /\ op' !! "error" = Some (opt_str error)
    /\ op' !! "completed_at"
       = (if is_final status
          then Some (VTime (fst (datetime_now sys (ext (world s)))))
          else op !! "completed_at")
    /\ (forall k, k <> "status" -> k <> "message" -> k <> "result" ->
                  k <> "error" -> k <> "completed_at" -> op' !! k = op !! k).
Proof.
  intros E. rewrite (update_operation_state _ _ _ _ _ _ _ E).
  destruct (is_final status); simpl; rewrite lookup_insert_eq;
    eexists; (split; [reflexivity|]); unfold updated;
    repeat split; try (now simplify_map_eq);
    intros k ? ? ? ? ?; now simplify_map_eq.
Qed.

(** A job whose body raises an [Exception] once the operation is
    [running]: the operation ends [failed], with the text of the exception
    as its error. *)
Lemma failing_job (i running_message failed_message : string)
    (log_of : string -> string) (rest : M St' unit) (s : St')
    (op : gmap string PyVal) (x : exn) (w1 : World Ext) :
  active_operations s !! i = Some op ->
  rest (mkServer (<[i := updated op "running" running_message None None None]>
                    (active_operations s)) (world s))
  = (Raise x,
     mkServer (<[i := updated op "running" running_message None None None]>
                 (active_operations s)) w1) ->
  is_Exception x = true ->
  try_except
    (update_operation sys i "running" running_message None None ;;; rest)
    (fun e =>
       if is_Exception e then
         Some (let error_msg := exn_str e in
               update_operation sys i "failed" failed_message None
                 (Some error_msg) ;;;
               lift (logger ERROR (log_of error_msg)))
       else None) s
  = (Ok tt,
     mkServer
       (<[i := updated (updated op "running" running_message None None None)
                 "failed" failed_message None (Some (exn_str x))
                 (Some (fst (datetime_now sys (ext w1))))]>
          (active_operations s))
       (mkWorld (snd (datetime_now sys (ext w1)))
                (log w1 ++ [(ERROR, log_of (exn_str x))]))).
Proof.
  intros E Hrest Hx.
  unfold try_except. unfold bind at 1.
  rewrite (update_operation_state _ _ _ _ _ _ _ E).
  change (is_final "running") with false. cbv iota.
  rewrite Hrest, Hx. unfold bind.
  erewrite update_operation_state by (simpl; apply lookup_insert_eq).
  change (is_final "failed") with true. cbv iota.
  unfold lift, logger. simpl. now rewrite insert_insert_eq.
Qed.

Lemma failed_fields (i failed_message : string) (op : gmap string PyVal)
    (x : exn) (t : nat) (store : gmap string (gmap string PyVal))
    (w : World Ext) :
  let s' := mkServer
              (<[i := updated op "failed" failed_message None
                        (Some (exn_str x)) (Some t)]> store) w in
  operation_field s' i "status" = Some (VStr "failed")
  /\ operation_field s' i "error" = Some (VStr (exn_str x)).
Proof.
  unfold operation_field, updated. simpl. rewrite lookup_insert_eq. simpl.
  split; now simplify_map_eq.
Qed.

Lemma add_file_job_fails (i repo_path section filename : string)
    (content : option string) (s : St') (op : gmap string PyVal) :
  active_operations s !! i = Some op ->
  is_valid_filename filename = false \/ is_valid_path repo_path = false ->
  let s' := snd (execute_add_file_operation sys i repo_path section filename
                   content s) in
  operation_field s' i "status" = Some (VStr "failed")
  /\ (operation_field s' i "error"
      = Some (VStr ("Invalid filename: " +:+ filename))
      \/ operation_field s' i "error"
         = Some (VStr ("Invalid repository path: " +:+ repo_path)))
  /\ ext (world s') = snd (datetime_now sys (ext (world s))).
Proof.
  intros E Hbad s'. subst s'. unfold execute_add_file_operation.
  destruct (is_valid_filename filename) eqn:Ef; simpl negb; cbv iota.
  - destruct Hbad as [Hbad | Hbad]; [discriminate|]. rewrite Hbad.
    simpl negb. cbv iota.
    rewrite (failing_job i _ _
               (fun m => "Add file operation " +:+ i +:+ " failed: " +:+ m) _ s op
               (ValueError ("Invalid repository path: " +:+ repo_path))
               (world s) E eq_refl eq_refl).
    simpl snd.
    destruct (failed_fields i "Add file operation failed"
                (updated op "running" "Creating file..." None None None)
                (ValueError ("Invalid repository path: " +:+ repo_path))
                (fst (datetime_now sys (ext (world s)))) (active_operations s)
                (mkWorld (snd (datetime_now sys (ext (world s))))
                   (log (world s)
                    ++ [(ERROR, "Add file operation " +:+ i +:+ " failed: "
                                +:+ ("Invalid repository path: " +:+ repo_path))])))
      as [Hs He].
    split; [exact Hs|]. split; [right; exact He | reflexivity].
  - rewrite (failing_job i _ _
               (fun m => "Add file operation " +:+ i +:+ " failed: " +:+ m) _ s op
               (ValueError ("Invalid filename: " +:+ filename))
               (world s) E eq_refl eq_refl).
    simpl snd.
    destruct (failed_fields i "Add file operation failed"
                (updated op "running" "Creating file..." None None None)
                (ValueError ("Invalid filename: " +:+ filename))
                (fst (datetime_now sys (ext (world s)))) (active_operations s)
                (mkWorld (snd (datetime_now sys (ext (world s))))
                   (log (world s)
                    ++ [(ERROR, "Add file operation " +:+ i +:+ " failed: "
                                +:+ ("Invalid filename: " +:+ filename))])))
      as [Hs He].
    split; [exact Hs|]. split; [left; exact He | reflexivity].
Qed.

(** The add-file job ends [failed], with the reason as its error, when the
    file name is invalid or the repository path fails [is_valid_path];
    nothing outside is touched but the clock. *)
Theorem add_file_job_rejects (i repo_path section filename : string)
    (content : option string) (s : St') (op : gmap string PyVal) :
  active_operations s !! i = Some op ->
  is_valid_filename filename = false \/ is_valid_path repo_path = false ->
  let s' := snd (execute_add_file_operation sys i repo_path section filename
                   content s) in
  operation_field s' i "status" = Some (VStr "failed")
  /\ (operation_field s' i "error"
      = Some (VStr ("Invalid filename: " +:+ filename))
      \/ operation_field s' i "error"
         = Some (VStr ("Invalid repository path: " +:+ repo_path)))
  /\ ext (world s') = snd (datetime_now sys (ext (world s))).
Proof. apply add_file_job_fails. Qed.

(** The add-file job checks the repository path with [is_valid_path],
    which refuses a root: for every repository path that begins with a
    slash the operation ends [failed] and nothing outside is touched but
    the clock, whatever the section, the file name and the content. *)
Theorem add_file_job_rejects_absolute (i repo_path section filename : string)
    (content : option string) (s : St') (op : gmap string PyVal) :
  active_operations s !! i = Some op ->
  startswith "/" repo_path = true ->
  let s' := snd (execute_add_file_operation sys i repo_path section filename
                   content s) in
  operation_field s' i "status" = Some (VStr "failed")
  /\ ext (world s') = snd (datetime_now sys (ext (world s))).
Proof.
  intros E Hroot.
  destruct (add_file_job_fails i repo_path section filename content s op E
              (or_intror (rooted_path_invalid _ (leading_slash_rooted _ Hroot))))
    as (Hstatus & _ & Hext).
  split; assumption.
Qed.

(** The clone job on an invalid URL ends [failed] with the error
    [Invalid repository URL: ...]; after the two configuration objects are
    built nothing outside is touched but the clock. *)
Theorem clone_job_rejects_url (i repo_url local_path : string)
    (s : St') (op : gmap string PyVal) (c1 c2 : MCPConfig) (w1 w2 : World Ext) :
  active_operations s !! i = Some op ->
  MCPConfig_init sys (world s) = (Ok c1, w1) ->
  MCPConfig_init sys w1 = (Ok c2, w2) ->
  is_valid_repo_url (netloc_rejected sys) repo_url = false ->
  let s' := snd (execute_clone_operation sys i repo_url local_path s) in
  operation_field s' i "status" = Some (VStr "failed")
  /\ operation_field s' i "error"
     = Some (VStr ("Invalid repository URL: " +:+ repo_url))
  /\ ext (world s') = snd (datetime_now sys (ext w2)).
Proof.
  intros E H1 H2 Hbad s'. subst s'.
  unfold execute_clone_operation, GitOperations_init. rewrite Hbad.
  simpl negb. cbv iota.
  rewrite (failing_job i _ _
             (fun m => "Clone operation " +:+ i +:+ " failed: " +:+ m) _ s op
             (ValueError ("Invalid repository URL: " +:+ repo_url)) w2 E).
  - simpl snd.
    destruct (failed_fields i "Clone operation failed"
                (updated op "running" "Cloning repository..." None None None)
                (ValueError ("Invalid repository URL: " +:+ repo_url))
                (fst (datetime_now sys (ext w2))) (active_operations s)
                (mkWorld (snd (datetime_now sys (ext w2)))
                   (log w2
                    ++ [(ERROR, "Clone operation " +:+ i +:+ " failed: "
                                +:+ ("Invalid repository URL: " +:+ repo_url))])))
      as [Hs He].
    split; [exact Hs|]. split; [exact He | reflexivity].
  - unfold bind, lift, raise. simpl. rewrite H1. simpl. rewrite H2. reflexivity.
  - reflexivity.
Qed.

(** Every route that asks for credentials answers a wrong key with the
    error 401 and leaves the state of the server as it was. *)
Theorem wrong_key_changes_nothing (c : ApiCall) (credentials : string) (s : St') :
  credentials_of c = Some credentials ->
  credentials <> api_key server_config ->
  serve sys server_config c s
  = (Raise (HTTPException 401 "Invalid API key"), s).
Proof.
  intros Hc Hk.
  assert (Hv : verify_api_key (Ext := Ext) server_config credentials s
               = (Raise (HTTPException 401 "Invalid API key"), s)).
  { unfold verify_api_key.
    destruct (String.eqb credentials (api_key server_config)) eqn:E;
      [apply String.eqb_eq in E; contradiction | reflexivity]. }
  destruct c; simpl in Hc; try discriminate Hc; injection Hc as ->; simpl;
    unfold respond_then_run, clone_repository_route, push_changes_route,
      add_file_route, get_operation, list_operations, stream_events;
    unfold bind; rewrite Hv; reflexivity.
Qed.


End ServerExtras.

Section RouteExtras.

Context {Ext : Type} (sys : Sys Ext) (server_config : ServerConfig).

(** With the right key, [GET /api/operations/{operation_id}] answers an
    identifier that is not in the store with the error 404 and leaves the
    state of the server as it was. *)
Theorem get_operation_unknown (i credentials : string)
    (s : ServerState (Ext := Ext)) :
  credentials = api_key server_config ->
  active_operations s !! i = None ->
  serve sys server_config (GetOperation i credentials) s
  = (Raise (HTTPException 404 "Operation not found"), s).
Proof.
  intros -> Hi. simpl.
  unfold get_operation, verify_api_key, get_operations, bind, raise, ret.
  rewrite String.eqb_refl. cbn [negb]. cbv beta iota.
  rewrite Hi.
  rewrite bool_decide_eq_false_2 by (intros [x Hx]; discriminate Hx).
  reflexivity.
Qed.

End RouteExtras.

(** ** The further properties on concrete machines *)

(** A step of the program that answers [a] gives the pair of [a] and of
    the world it leaves. *)
Lemma run_eq {Ext A : Type} (r : Res A * World Ext) (a : Res A) :
  fst r = a -> r = (a, mkWorld (ext (snd r)) (log (snd r))).
Proof. destruct r as [x [e l]]. simpl. now intros ->. Qed.

Lemma is_valid_path_rejects_absolute_witness : is_valid_path "/repo/src" = false.
Proof. apply is_valid_path_rejects_absolute. reflexivity. Defined.

Lemma section_file_path_shape_witness :
  names (joinpath (joinpath (Path "/tmp/repo") "src/components") "Button.js")
  = ["tmp"; "repo"; "src"; "components"; "Button.js"].
Proof.
  destruct (section_file_path_shape "/tmp/repo" "src/components" "Button.js")
    as (_ & Hn & _).
  - vm_compute; reflexivity.
  - vm_compute; reflexivity.
  - discriminate.
  - rewrite Hn. reflexivity.
Defined.

Lemma create_directory_dry_run_witness :
  fst (create_directory Toy.sys (Path "/repo/new") true
         (Example.start (Example.machine Example.clean_repo ∅ ∅))) = Ok true.
Proof.
  destruct (create_directory_dry_run Toy.sys (Path "/repo/new") true
              (Example.start (Example.machine Example.clean_repo ∅ ∅)))
    as [_ Hanswer].
  - reflexivity.
  - apply Hanswer. vm_compute; reflexivity.
Defined.

Lemma create_file_dry_run_witness :
  ext (snd (create_file Toy.sys "/repo/src/a.txt" true true
              (Example.start Cases.busy))) = Cases.busy.
Proof.
  destruct (create_file_dry_run Toy.sys "/repo/src/a.txt" true true
              (Example.start Cases.busy)) as [Hsame _].
  - reflexivity.
  - apply Hsame. reflexivity.
Defined.

Lemma create_file_keeps_existing_witness :
  fst (create_file Toy.sys "/repo/src/a.txt" false false (mkWorld Cases.busy []))
  = Ok false
  /\ Toy.fs (ext (snd (create_file Toy.sys "/repo/src/a.txt" false false
                         (mkWorld Cases.busy []))))
       !! ["repo"; "src"; "a.txt"] = Some (Toy.File "old").
Proof.
  set (prompt := "File /repo/src/a.txt already exists. Overwrite? (y/N): ").
  rewrite (create_file_keeps_existing Toy.sys "/repo/src/a.txt" false Cases.busy
             (snd (Toy.read_input prompt Cases.busy)) [] "n").
  - split; vm_compute; reflexivity.
  - vm_compute; reflexivity.
  - vm_compute; reflexivity.
  - apply injective_projections; [vm_compute; reflexivity | reflexivity].
  - discriminate.
  - discriminate.
Defined.

Lemma add_file_to_section_refuses_witness :
  fst (add_file_to_section Toy.sys "nowhere" "src" "notes.txt" false false
         (Example.start (Example.machine Example.clean_repo ∅ ∅))) = Ok false.
Proof.
  destruct (add_file_to_section_refuses Toy.sys "nowhere" "src" "notes.txt"
              false false
              (Example.start (Example.machine Example.clean_repo ∅ ∅)))
    as [msg Hrun].
  - left. vm_compute; reflexivity.
  - rewrite Hrun. reflexivity.
Defined.

Lemma add_file_to_section_touches_witness :
  fst (add_file_to_section Toy.sys "/repo" "src" "notes.txt" false false
         (mkWorld (Example.machine Example.clean_repo ∅ ∅) [])) = Ok true
  /\ Toy.fs (ext (snd (add_file_to_section Toy.sys "/repo" "src" "notes.txt"
                         false false
                         (mkWorld (Example.machine Example.clean_repo ∅ ∅) []))))
       !! ["repo"; "src"; "notes.txt"] = Some (Toy.File EmptyString).
Proof.
  set (e := Example.machine Example.clean_repo ∅ ∅).
  set (made := create_directory Toy.sys (joinpath (Path "/repo") "src") false
                 (mkWorld e [])).
  set (file_path := mkPath "/" ["repo"; "src"; "notes.txt"]).
  pose proof (add_file_to_section_touches Toy.sys "/repo" "src" "notes.txt"
                false e (ext (snd made))
                (snd (Toy.touch file_path (ext (snd made)))) []
                (log (snd made))) as Hrun.
  cbv zeta in Hrun. rewrite Hrun.
  - split; vm_compute; reflexivity.
  - vm_compute; reflexivity.
  - vm_compute; reflexivity.
  - vm_compute; reflexivity.
  - vm_compute; reflexivity.
  - discriminate.
  - vm_compute; reflexivity.
  - apply run_eq. vm_compute; reflexivity.
  - apply injective_projections; [vm_compute; reflexivity | reflexivity].
Defined.

Lemma is_git_repository_spec_witness :
  fst (is_git_repository Toy.sys "/repo"
         (Example.start (Example.machine Example.clean_repo ∅ ∅))) = Ok true
  /\ fst (is_git_repository Toy.sys "/home"
            (Example.start (Example.machine Example.clean_repo ∅ ∅))) = Ok false.
Proof.
  split.
  - destruct (is_git_repository_spec Toy.sys "/repo"
                (Example.start (Example.machine Example.clean_repo ∅ ∅)))
      as (_ & [_ Hopen] & _).
    apply Hopen. vm_compute; reflexivity.
  - destruct (is_git_repository_spec Toy.sys "/home"
                (Example.start (Example.machine Example.clean_repo ∅ ∅)))
      as (_ & _ & Hraise).
    apply (Hraise InvalidGitRepositoryError); [vm_compute; reflexivity | reflexivity].
Defined.

Lemma clone_repository_dry_run_witness :
  clone_repository Toy.sys Example.origin_url "work" true
    (Example.start (Example.machine Example.clean_repo ∅ ∅))
  = (Ok true,
     mkWorld (Example.machine Example.clean_repo ∅ ∅)
       [(INFO, "[DRY RUN] Would clone https://github.com/user/repo.git to work")]).
Proof.
  apply (clone_repository_dry_run Toy.sys Example.origin_url "work" true
           (Example.start (Example.machine Example.clean_repo ∅ ∅)));
    vm_compute; reflexivity.
Defined.

Lemma clone_repository_refuses_file_witness :
  fst (clone_repository Toy.sys Example.origin_url "/repo/src/a.txt" false
         (Example.start Cases.busy)) = Ok false
  /\ ext (snd (clone_repository Toy.sys Example.origin_url "/repo/src/a.txt" false
                 (Example.start Cases.busy))) = Cases.busy.
Proof.
  rewrite (clone_repository_refuses_file Toy.sys Example.origin_url
             "/repo/src/a.txt" false (Example.start Cases.busy)).
  - split; reflexivity.
  - vm_compute; reflexivity.
  - vm_compute; reflexivity.
  - vm_compute; reflexivity.
  - vm_compute; reflexivity.
Defined.

Lemma clone_repository_declined_witness :
  fst (clone_repository Toy.sys Example.origin_url "/repo/src" false
         (mkWorld Cases.busy [])) = Ok false
  /\ Toy.repos (ext (snd (clone_repository Toy.sys Example.origin_url "/repo/src"
                            false (mkWorld Cases.busy []))))
       !! ["repo"; "src"] = None.
Proof.
  set (prompt := "Directory /repo/src already exists. Continue anyway? (y/N): ").
  destruct (clone_repository_declined Toy.sys Example.origin_url "/repo/src" "n"
              false Cases.busy (snd (Toy.read_input prompt Cases.busy)) [])
    as [warning Hrun].
  - vm_compute; reflexivity.
  - vm_compute; reflexivity.
  - vm_compute; reflexivity.
  - vm_compute; reflexivity.
  - intros x Hx. vm_compute in Hx. injection Hx as <-. reflexivity.
  - apply injective_projections; [vm_compute; reflexivity | reflexivity].
  - discriminate.
  - discriminate.
  - rewrite Hrun. split; vm_compute; reflexivity.
Defined.

Lemma clone_repository_clones_witness :
  fst (clone_repository Toy.sys Example.origin_url "work" false
         (mkWorld (Example.machine Example.clean_repo ∅ ∅) [])) = Ok true
  /\ Toy.origin
       <$> Toy.repos (ext (snd (clone_repository Toy.sys Example.origin_url "work"
                                  false
                                  (mkWorld (Example.machine Example.clean_repo ∅ ∅)
                                           []))))
           !! ["work"]
     = Some (Some Example.origin_url).
Proof.
  set (e := Example.machine Example.clean_repo ∅ ∅).
  set (e1 := snd (Toy.mkdir (parent (Path "work")) true true e)).
  rewrite (clone_repository_clones Toy.sys Example.origin_url "work" e e1
             (snd (Toy.clone Example.origin_url "work" e1)) []).
  - split; vm_compute; reflexivity.
  - vm_compute; reflexivity.
  - vm_compute; reflexivity.
  - apply injective_projections; [vm_compute; reflexivity | reflexivity].
  - apply injective_projections; [vm_compute; reflexivity | reflexivity].
Defined.

Lemma push_changes_not_a_repository_witness :
  push_changes Toy.sys Example.mcp_config "/home" "notes" false
    (Example.start (Example.machine Example.edited_repo ∅ ∅))
  = (Ok false,
     mkWorld (Example.machine Example.edited_repo ∅ ∅)
       [(ERROR, "Path /home is not a valid Git repository")]).
Proof.
  apply (push_changes_not_a_repository Toy.sys Example.mcp_config "/home" "notes"
           false (Example.start (Example.machine Example.edited_repo ∅ ∅))
           InvalidGitRepositoryError);
    vm_compute; reflexivity.
Defined.

Lemma push_changes_dry_run_witness :
  fst (push_changes Toy.sys Example.mcp_config "/repo" "notes" true
         (Example.start (Example.machine Example.edited_repo ∅ ∅))) = Ok true
  /\ ext (snd (push_changes Toy.sys Example.mcp_config "/repo" "notes" true
                 (Example.start (Example.machine Example.edited_repo ∅ ∅))))
     = Example.machine Example.edited_repo ∅ ∅.
Proof.
  apply (push_changes_dry_run Toy.sys Example.mcp_config "/repo" "notes" true
           (Example.start (Example.machine Example.edited_repo ∅ ∅))).
  - vm_compute; reflexivity.
  - left. vm_compute; reflexivity.
  - reflexivity.
Defined.

Lemma push_changes_keeps_url_witness :
  fst (push_changes Toy.sys Example.mcp_config "/repo" "notes" false
         (Example.start Example.rejecting_remote)) = Ok false
  /\ Toy.commits
       <$> Toy.repos (ext (snd (push_changes Toy.sys Example.mcp_config "/repo"
                                  "notes" false
                                  (Example.start Example.rejecting_remote))))
           !! ["repo"]
     = Some ["initial"; "notes"].
Proof.
  set (e0 := Example.rejecting_remote).
  set (e1 := snd (git_add_all Toy.sys "/repo" e0)).
  set (e2 := snd (index_commit Toy.sys "/repo" "notes" e1)).
  destruct (push_changes_keeps_url Toy.sys Example.mcp_config "/repo" "notes"
              [] e0 e1 e2 "main") as [Hanswer Hstate].
  - vm_compute; reflexivity.
  - left. vm_compute; reflexivity.
  - apply injective_projections; [vm_compute; reflexivity | reflexivity].
  - apply injective_projections; [vm_compute; reflexivity | reflexivity].
  - vm_compute; reflexivity.
  - vm_compute; reflexivity.
  - left. vm_compute; reflexivity.
  - unfold Example.start. fold e0. rewrite Hanswer, Hstate.
    split; vm_compute; reflexivity.
Defined.



Lemma update_operation_fields_witness :
  exists op',
    active_operations
      (snd (update_operation Toy.sys "op-1" "running" "Cloning" None None
              Cases.one_operation)) !! "op-1" = Some op'
    /\ op' !! "status" = Some (VStr "running")
    /\ op' !! "completed_at" = Some VNone
    /\ op' !! "type" = Some (VStr "clone").
Proof.
  destruct (update_operation_fields Toy.sys "op-1" "running" "Cloning" None None
              Cases.one_operation (new_operation "op-1" "clone" [] 100))
    as (op' & Hop & Hstatus & _ & _ & _ & Hdone & Hrest).
  - apply lookup_insert_eq.
  - exists op'. split; [exact Hop|]. split; [exact Hstatus|]. split.
    + rewrite Hdone. reflexivity.
    + rewrite Hrest by discriminate. reflexivity.
Defined.

Lemma add_file_job_rejects_witness :
  operation_field
    (snd (execute_add_file_operation Toy.sys "op-1" "/repo" "src" "a/b.txt" None
            Cases.one_operation))
    "op-1" "error"
  = Some (VStr "Invalid filename: a/b.txt").
Proof.
  destruct (add_file_job_rejects Toy.sys "op-1" "/repo" "src" "a/b.txt" None
              Cases.one_operation (new_operation "op-1" "clone" [] 100))
    as (_ & [Herror | Herror] & _).
  - apply lookup_insert_eq.
  - left. vm_compute; reflexivity.
  - exact Herror.
  - vm_compute. reflexivity.
Defined.

Lemma clone_job_rejects_url_witness :
  operation_field
    (snd (execute_clone_operation Toy.sys "op-1" "not a url" "work"
            Cases.one_operation))
    "op-1" "error"
  = Some (VStr "Invalid repository URL: not a url").
Proof.
  set (w1 := snd (MCPConfig_init Toy.sys (world Cases.one_operation))).
  destruct (clone_job_rejects_url Toy.sys "op-1" "not a url" "work"
              Cases.one_operation (new_operation "op-1" "clone" [] 100)
              Example.mcp_config Example.mcp_config w1
              (snd (MCPConfig_init Toy.sys w1)))
    as (_ & Herror & _).
  - apply lookup_insert_eq.
  - apply injective_projections; [vm_compute; reflexivity | reflexivity].
  - apply injective_projections; [vm_compute; reflexivity | reflexivity].
  - vm_compute; reflexivity.
  - exact Herror.
Defined.

Lemma wrong_key_changes_nothing_witness :
  serve Toy.sys Example.config (GetOperation "op-1" "guess") Cases.one_operation
  = (Raise (HTTPException 401 "Invalid API key"), Cases.one_operation).
Proof.
  apply (wrong_key_changes_nothing Toy.sys Example.config
           (GetOperation "op-1" "guess") "guess" Cases.one_operation).
  - reflexivity.
  - discriminate.
Defined.


Lemma get_operation_unknown_witness :
  serve Toy.sys Example.config (GetOperation "op-9" "mcp-default-key")
    Cases.one_operation
  = (Raise (HTTPException 404 "Operation not found"), Cases.one_operation).
Proof.
  apply (get_operation_unknown Toy.sys Example.config "op-9" "mcp-default-key"
           Cases.one_operation).
  - reflexivity.
  - vm_compute; reflexivity.
Defined.

Lemma add_file_job_rejects_absolute_witness :
  operation_field
    (snd (execute_add_file_operation Toy.sys "op-1" "/repo" "src" "notes.txt"
            (Some "hello") Cases.one_operation))
    "op-1" "status"
  = Some (VStr "failed").
Proof.
  destruct (add_file_job_rejects_absolute Toy.sys "op-1" "/repo" "src" "notes.txt"
              (Some "hello") Cases.one_operation
              (new_operation "op-1" "clone" [] 100))
    as [Hstatus _].
  - apply lookup_insert_eq.
  - reflexivity.
  - exact Hstatus.
Defined.
